(** * Smite: the node agent API and the panel's certificate bootstrap

    A shallow embedding of
      - [src/node/app/routers/agent.py]      (module [agent]), and
      - [src/panel/app/hysteria2_server.py]  (module [hysteria2_server]),
    with what they run on: the fragment of the Python runtime they use
    ([py]), the adapter manager the agent calls ([adapter_manager]),
    paths, the file system, the clock and the entropy source ([pathlib],
    [os]), and the certificate objects ([x509]).

    Python code that raises is modelled with [py.result]; code that also
    reads or changes the outside world is a function of the world
    ([os.M]), and keeps its effects when it raises.

    The properties follow the definitions: [agent_spec] for the
    endpoints, [os_facts] for the file system, [hysteria2_server_spec]
    for the certificate bootstrap; then [agent_edge_cases] for the
    remaining endpoint, odd usage figures and the logging middleware
    ([LoggingMiddleware]), [os_write_facts] and [hysteria2_server_runs]
    for whole runs of the bootstrap. *)

From Stdlib Require Import ZArith Lia.
From stdpp Require Import gmap strings list fin_maps pretty.

Local Open Scope string_scope.

(** ** The Python runtime fragment *)

Module py.

(** An exception instance: its class name, whether that class derives
    from [Exception] (all errors do; [KeyboardInterrupt], [SystemExit]
    and [asyncio.CancelledError] derive from [BaseException] only, and
    [except Exception] lets them through), and the text [str(e)]. *)
Record exc := Exc {
  exc_class : string;
  derives_Exception : bool;
  exc_str : string
}.

Definition error (cls msg : string) : exc := Exc cls true msg.

Definition PermissionError := error "PermissionError".
Definition FileExistsError := error "FileExistsError".
Definition FileNotFoundError := error "FileNotFoundError".
Definition NotADirectoryError := error "NotADirectoryError".
Definition IsADirectoryError := error "IsADirectoryError".
Definition IOError := error "OSError".   (* IOError is an alias of OSError *)
Definition OverflowError := error "OverflowError".
Definition ValueError := error "ValueError".

(** The outcome of evaluating an expression or a call. *)
Inductive result (A : Type) : Type :=
  | Ok (a : A)
  | Raise (e : exc).
Arguments Ok {A} a.
Arguments Raise {A} e.

#[global] Instance result_ret : MRet result := fun A a => Ok a.
#[global] Instance result_bind : MBind result := fun A B f r =>
  match r with
  | Ok a => f a
  | Raise e => Raise e
  end.

(** [try: body  except Exception as e: handler e]. *)
Definition try_except {A} (body : result A) (handler : exc → result A) : result A :=
  match body with
  | Ok a => Ok a
  | Raise e => if derives_Exception e then handler e else Raise e
  end.

(** Values of type [Any] that cross the API: request specs, status
    records, response fields. *)
#[warnings="-register-all"] Inductive value :=
  | VNone
  | VBool (b : bool)
  | VInt (n : Z)
  | VStr (s : string)
  | VList (l : list value)
  | VDict (d : list (string * value)).

(** A [dict] literal, in the order it is written, and [d[k]]. *)
Definition dict := list (string * value).

Fixpoint dict_get (k : string) (d : dict) : option value :=
  match d with
  | [] => None
  | (k', v) :: d' => if decide (k = k') then Some v else dict_get k d'
  end.

(** *** Numbers

    A [float] is an IEEE-754 binary64: a finite one is [m * 2^e] with
    [|m| < 2^53] and [-1074 <= e <= 971]. *)
Inductive float :=
  | Finite (m e : Z)
  | Inf (negative : bool)
  | NaN.

Definition float_valid (f : float) : Prop :=
  match f with
  | Finite m e => (Z.abs m < 2 ^ 53 ∧ -1074 ≤ e ≤ 971)%Z
  | _ => True
  end.

Inductive num :=
  | Int (n : Z)
  | Float (f : float).

(** [x * 1024]. On a float the product with a power of two is exact,
    and overflows to an infinity from [2^1024] on. *)
Definition mul_1024 (x : num) : num :=
  match x with
  | Int n => Int (n * 1024)
  | Float (Finite m e) =>
      if (Z.abs m * 2 ^ (e + 10) <? 2 ^ 1024)%Z
      then Float (Finite m (e + 10))
      else Float (Inf (m <? 0)%Z)
  | Float f => Float f
  end.

(** [int(x)]: truncation towards zero; infinities and NaN raise. *)
Definition int (x : num) : result Z :=
  match x with
  | Int n => Ok n
  | Float (Finite m e) =>
      Ok (if (0 <=? e)%Z then m * 2 ^ e else Z.quot m (2 ^ (- e)))%Z
  | Float (Inf _) => Raise (OverflowError "cannot convert float infinity to integer")
  | Float NaN => Raise (ValueError "cannot convert float NaN to integer")
  end.

End py.

Import py.

(** ** The adapter manager the agent delegates to

    [request.app.state.adapter_manager] is defined outside the two source
    files; the endpoints only call the methods below, so they are taken
    as an interface over an arbitrary manager state [S]. *)

Module adapter_manager.

(** A tunnel adapter, as far as the agent uses it: an ordinary object
    (so [if adapter:] tests for its presence) with a usage meter, which
    the agent only reads. *)
Record adapter := Adapter {
  get_usage_mb : string → result num
}.

Class AdapterManager (S : Type) := {
  (* the dict  tunnel_id -> adapter  of the tunnels being tracked *)
  active_tunnels : S → gmap string adapter;
  (* apply_tunnel(tunnel_id=, tunnel_type=, spec=) *)
  apply_tunnel : string → string → dict → S → S * result unit;
  remove_tunnel : string → S → S * result unit;
  get_tunnel_status : string → S → S * result value
}.

End adapter_manager.

(** ** src/node/app/routers/agent.py *)

Module agent.
Import adapter_manager.

Module TunnelApply.
Record t := Build {
  tunnel_id : string;
  core : string;
  type : string;
  spec : dict
}.
End TunnelApply.

Module TunnelRemove.
Record t := Build { tunnel_id : string }.
End TunnelRemove.

Module UsagePush.
Record t := Build {
  tunnel_id : string;
  bytes_used : Z
}.
End UsagePush.

(** What an endpoint hands back to the framework: a response body, a
    raised [HTTPException(status_code=, detail=)], or an exception it
    did not catch. The diagnostic [print] and [logger] calls are not
    part of the model. *)
Inductive outcome :=
  | Returned (body : dict)
  | RaisedHTTPException (status_code : Z) (detail : string)
  | Propagated (e : exc).

(** The tail shared by the three tunnel endpoints:
    [except Exception as e: raise HTTPException(status_code=500, detail=str(e))]. *)
Definition or_500 {A} (r : result A) (body : A → dict) : outcome :=
  match r with
  | Ok a => Returned (body a)
  | Raise e =>
      if derives_Exception e
      then RaisedHTTPException 500 (exc_str e)
      else Propagated e
  end.

(** What the framework sees of a handler that returns a body unless an
    exception gets past its own [except Exception]. *)
Definition returned (r : result dict) : outcome :=
  match r with
  | Ok body => Returned body
  | Raise e => Propagated e
  end.

Section endpoints.
Context {S : Type} `{!AdapterManager S}.

Definition apply_tunnel (data : TunnelApply.t) (s : S) : S * outcome :=
  let '(s', r) :=
    adapter_manager.apply_tunnel
      (TunnelApply.tunnel_id data) (TunnelApply.type data) (TunnelApply.spec data) s in
  (s', or_500 r (λ _, [("status", VStr "success"); ("message", VStr "Tunnel applied")])).

Definition remove_tunnel (data : TunnelRemove.t) (s : S) : S * outcome :=
  let '(s', r) := adapter_manager.remove_tunnel (TunnelRemove.tunnel_id data) s in
  (s', or_500 r (λ _, [("status", VStr "success"); ("message", VStr "Tunnel removed")])).

Definition get_tunnel_status (tunnel_id : string) (s : S) : S * outcome :=
  let '(s', r) := adapter_manager.get_tunnel_status tunnel_id s in
  (s', or_500 r (λ status, [("status", VStr "success"); ("data", status)])).

Definition push_usage (data : UsagePush.t) (s : S) : outcome :=
  returned (try_except
    (let adapter := active_tunnels s !! UsagePush.tunnel_id data in
     data ← match adapter with
            | Some adapter =>
                usage_mb ← get_usage_mb adapter (UsagePush.tunnel_id data);
                bytes ← int (mul_1024 (mul_1024 usage_mb));
                mret (UsagePush.Build (UsagePush.tunnel_id data) bytes)
            | None => mret data
            end;
     mret [("status", VStr "ok"); ("bytes_used", VInt (UsagePush.bytes_used data))])
    (λ e, mret [("status", VStr "error"); ("message", VStr (exc_str e))])).

(** [list(d.keys())] comes in the order the map enumerates its keys; the
    insertion order of a Python dict is not kept by the model. *)
Definition get_status (s : S) : outcome :=
  Returned [
    ("status", VStr "ok");
    ("active_tunnels", VInt (Z.of_nat (size (active_tunnels s))));
    ("tunnels", VList (VStr <$> (map_to_list (active_tunnels s)).*1))
  ].

End endpoints.

End agent.

(** ** The operating system as the panel sees it *)

Module pathlib.

(** A [Path], already parsed: free of [.], [..] and links. [str(p)] and
    [Path(s)] convert between this and its text, so the server's path
    settings are kept in this form. *)
Record Path := mkPath {
  is_absolute : bool;
  parts : list string
}.

(** [p.parent]. *)
Definition parent (p : Path) : Path :=
  mkPath (is_absolute p) (removelast (parts p)).

(** [base / p]: an absolute right operand replaces the left one. *)
Definition joinpath (base p : Path) : Path :=
  if is_absolute p then p
  else mkPath (is_absolute base) (parts base ++ parts p).

(** [str(p)]. *)
Definition str (p : Path) : string :=
  match is_absolute p, parts p with
  | true, ps => "/" +:+ String.concat "/" ps
  | false, [] => "."
  | false, ps => String.concat "/" ps
  end.

End pathlib.

Module os.
Import pathlib.

(** *** Files and directories

    A tree of directories, each with the flag "this process may write
    to it", and files with their bytes. Files are writable by their
    owner; search permission is not modelled. *)
#[warnings="-register-all"] Inductive node :=
  | File (content : list Byte.byte)
  | Dir (writable : bool) (entries : gmap string node).

Fixpoint node_at (p : list string) (n : node) : option node :=
  match p with
  | [] => Some n
  | c :: p' =>
      match n with
      | Dir _ es => es !! c ≫= node_at p'
      | File _ => None
      end
  end.

(** The bytes of the file at [p], if there is a file. *)
Definition file_at (p : list string) (n : node) : option (list Byte.byte) :=
  match node_at p n with
  | Some (File c) => Some c
  | _ => None
  end.

(** [Path.mkdir(parents=True, exist_ok=True)] below [n]: an existing
    directory is left alone, missing ones are created (writable) from
    the first missing component down, which needs write access to the
    directory that receives it. *)
Fixpoint mkdir_parents (p : list string) (n : node) : result node :=
  match p with
  | [] =>
      match n with
      | Dir _ _ => Ok n
      | File _ => Raise (FileExistsError "[Errno 17] File exists")
      end
  | c :: p' =>
      match n with
      | File _ => Raise (NotADirectoryError "[Errno 20] Not a directory")
      | Dir w es =>
          match es !! c with
          | Some child =>
              child' ← mkdir_parents p' child; Ok (Dir w (<[c:=child']> es))
          | None =>
              if w
              then child' ← mkdir_parents p' (Dir true ∅); Ok (Dir w (<[c:=child']> es))
              else Raise (PermissionError "[Errno 13] Permission denied")
          end
      end
  end.

(** [open(p, "wb")]: creates the file, or truncates the one there. *)
Fixpoint open_wb (p : list string) (n : node) : result node :=
  match p with
  | [] =>
      match n with
      | File _ => Ok (File [])
      | Dir _ _ => Raise (IsADirectoryError "[Errno 21] Is a directory")
      end
  | c :: p' =>
      match n with
      | File _ => Raise (NotADirectoryError "[Errno 20] Not a directory")
      | Dir w es =>
          match es !! c with
          | Some child =>
              child' ← open_wb p' child; Ok (Dir w (<[c:=child']> es))
          | None =>
              match p' with
              | [] =>
                  if w then Ok (Dir w (<[c:=File []]> es))
                  else Raise (PermissionError "[Errno 13] Permission denied")
              | _ :: _ => Raise (FileNotFoundError "[Errno 2] No such file or directory")
              end
          end
      end
  end.

(** [f.write(data)] and the [close] that ends the [with] block, on the
    file opened at [p]. *)
Fixpoint write_bytes (p : list string) (data : list Byte.byte) (n : node) : node :=
  match p with
  | [] =>
      match n with
      | File _ => File data
      | Dir _ _ => n
      end
  | c :: p' =>
      match n with
      | File _ => n
      | Dir w es => Dir w (alter (write_bytes p' data) c es)
      end
  end.

(** *** The world: file system, working directory, clock, entropy, log

    A call changes the world even when it ends by raising. [w_history]
    records the file system after each change, latest first: the states
    a crash can leave behind. The clock is read in whole seconds since
    the epoch (certificates keep no finer time); [w_clock k] is what
    the [k]-th reading returns, [w_entropy k] the [k]-th random draw. *)
Inductive level := INFO | ERROR.

Record world := mkWorld {
  w_root : node;
  w_cwd : list string;
  w_history : list node;
  w_clock : nat → Z;
  w_ticks : nat;
  w_entropy : nat → Z;
  w_draws : nat;
  w_log : list (level * string)
}.

Definition M (A : Type) : Type := world → world * result A.

#[global] Instance M_ret : MRet M := λ A a w, (w, Ok a).
#[global] Instance M_bind : MBind M := λ A B f m w,
  match m w with
  | (w', Ok a) => f a w'
  | (w', Raise e) => (w', Raise e)
  end.

Definition raise {A} (e : exc) : M A := λ w, (w, Raise e).

(** [try: body  except Exception as e: handler e]. *)
Definition try_except {A} (body : M A) (handler : exc → M A) : M A := λ w,
  match body w with
  | (w', Ok a) => (w', Ok a)
  | (w', Raise e) => if derives_Exception e then handler e w' else (w', Raise e)
  end.

Definition set_root (r : node) (w : world) : world :=
  mkWorld r (w_cwd w) (r :: w_history w) (w_clock w) (w_ticks w)
          (w_entropy w) (w_draws w) (w_log w).

(** Where the operating system looks for [p]. *)
Definition locate (w : world) (p : Path) : list string :=
  if is_absolute p then parts p else w_cwd w ++ parts p.

Definition lift_fs (op : node → result node) : M unit := λ w,
  match op (w_root w) with
  | Ok r => (set_root r w, Ok tt)
  | Raise e => (w, Raise e)
  end.

Definition getcwd : M Path := λ w, (w, Ok (mkPath true (w_cwd w))).

Definition mkdir (p : Path) : M unit := λ w,
  lift_fs (mkdir_parents (locate w p)) w.

Definition exists_ (p : Path) : M bool := λ w,
  (w, Ok (bool_decide (is_Some (node_at (locate w p) (w_root w))))).

(** [os.access(p, os.W_OK)]. *)
Definition access_W_OK (p : Path) : M bool := λ w,
  (w, Ok match node_at (locate w p) (w_root w) with
         | Some (Dir writable _) => writable
         | Some (File _) => true
         | None => false
         end).

(** [p.stat().st_size]. *)
Definition stat_st_size (p : Path) : M nat := λ w,
  match node_at (locate w p) (w_root w) with
  | Some (File c) => (w, Ok (length c))
  | Some (Dir _ _) => (w, Ok 4096)
  | None => (w, Raise (FileNotFoundError "[Errno 2] No such file or directory"))
  end.

(** [with open(p, "wb") as f: f.write(data)]. *)
Definition write_file (p : Path) (data : list Byte.byte) : M unit := λ w,
  (lift_fs (open_wb (locate w p));;
   lift_fs (λ r, Ok (write_bytes (locate w p) data r))) w.

(** [datetime.utcnow()]. *)
Definition utcnow : M Z := λ w,
  (mkWorld (w_root w) (w_cwd w) (w_history w) (w_clock w) (Datatypes.S (w_ticks w))
           (w_entropy w) (w_draws w) (w_log w),
   Ok (w_clock w (w_ticks w))).

Definition urandom : M Z := λ w,
  (mkWorld (w_root w) (w_cwd w) (w_history w) (w_clock w) (w_ticks w)
           (w_entropy w) (Datatypes.S (w_draws w)) (w_log w),
   Ok (w_entropy w (w_draws w))).

(** The file-system states a run from [w] to [w'] went through, latest
    first. *)
Definition states_since (w w' : world) : list node :=
  take (length (w_history w') - length (w_history w)) (w_history w').

Definition log (l : level) (msg : string) : M unit := λ w,
  (mkWorld (w_root w) (w_cwd w) (w_history w) (w_clock w) (w_ticks w)
           (w_entropy w) (w_draws w) (w_log w ++ [(l, msg)]),
   Ok tt).

(** [evolves P w w']: from [w] to [w'] the working directory, the clock
    and the entropy source are the same, the history has only grown, and
    every state gone through (the last one included) has the files of [w]
    everywhere outside [P]. *)
Definition evolves (P : list string → Prop) (w w' : world) : Prop :=
  w_cwd w' = w_cwd w ∧ w_clock w' = w_clock w ∧ w_entropy w' = w_entropy w ∧
  (∃ new, w_history w' = (new ++ w_history w)%list ∧
          Forall (λ s, ∀ q, ¬ P q → file_at q s = file_at q (w_root w)) new) ∧
  (∀ q, ¬ P q → file_at q (w_root w') = file_at q (w_root w)).

(** A step that leaves the file system alone. *)
Definition quiet (w w' : world) : Prop :=
  w_root w' = w_root w ∧ w_history w' = w_history w ∧ w_cwd w' = w_cwd w ∧
  w_clock w' = w_clock w ∧ w_entropy w' = w_entropy w.

End os.

(** ** The [cryptography] objects the panel builds *)

Module x509.

Inductive NameOID :=
  | COUNTRY_NAME
  | STATE_OR_PROVINCE_NAME
  | LOCALITY_NAME
  | ORGANIZATION_NAME
  | COMMON_NAME.

(** [x509.Name([x509.NameAttribute(oid, value), ...])]. *)
Definition Name := list (NameOID * string).

Inductive HashAlgorithm := SHA1 | SHA256 | SHA384 | SHA512.

Record RSAPrivateKey := mkPrivateKey {
  public_exponent : Z;
  key_size : Z;
  secret : Z          (* what the entropy source decided *)
}.

Record RSAPublicKey := mkPublicKey {
  pub_exponent : Z;
  pub_key_size : Z;
  pub_of_secret : Z
}.

Definition public_key (k : RSAPrivateKey) : RSAPublicKey :=
  mkPublicKey (public_exponent k) (key_size k) (secret k).

Inductive ExtensionType :=
  | BasicConstraints (ca : bool) (path_length : option Z).

Record Extension := mkExtension {
  value : ExtensionType;
  critical : bool
}.

(** A signed certificate. Times are seconds since the epoch. *)
Record Certificate := mkCertificate {
  subject : Name;
  issuer : Name;
  cert_public_key : RSAPublicKey;
  serial_number : Z;
  not_valid_before : Z;
  not_valid_after : Z;
  extensions : list Extension;
  signed_with : RSAPrivateKey;
  signature_hash_algorithm : HashAlgorithm
}.

(** [timedelta(days=d)], in seconds. *)
Definition timedelta_days (d : Z) : Z := (d * 86400)%Z.

(** 1950-01-01T00:00:00, the earliest time the builder lets a certificate
    carry, and 9999-12-31T23:59:59, the last second a [datetime] holds. *)
Definition EARLIEST_UTC_TIME : Z := (-631152000)%Z.
Definition datetime_max : Z := 253402300799%Z.

(** [d + timedelta(days=n)] for a [datetime] [d], with [n] not negative. *)
Definition datetime_add_days (d n : Z) : result Z :=
  if (datetime_max <? d + timedelta_days n)%Z
  then Raise (OverflowError "date value out of range")
  else Ok (d + timedelta_days n)%Z.

(** What [CertificateBuilder] refuses when [serial_number],
    [not_valid_before] and [not_valid_after] are called on it, the
    latter once the former is set. *)
Definition check_serial_number (number : Z) : result unit :=
  if (number <=? 0)%Z
  then Raise (ValueError "The serial number should be positive.")
  else if (2 ^ 159 <=? number)%Z
  then Raise (ValueError "The serial number should not be more than 159 bits.")
  else Ok tt.

Definition check_not_valid_before (time : Z) : result unit :=
  if (time <? EARLIEST_UTC_TIME)%Z
  then Raise (ValueError "The not valid before date must be on or after 1950 January 1).")
  else Ok tt.

Definition check_not_valid_after (not_valid_before time : Z) : result unit :=
  if (time <? EARLIEST_UTC_TIME)%Z
  then Raise (ValueError "The not valid after date must be on or after 1950 January 1.")
  else if (time <? not_valid_before)%Z
  then Raise (ValueError "The not valid after date must be after the not valid before date.")
  else Ok tt.

End x509.

(** ** src/panel/app/hysteria2_server.py *)

Module hysteria2_server.
Import pathlib os x509.

(** The instance attributes the two methods use. [server] stays [None]
    and [clients] stays empty throughout, so they are left out. *)
Record Hysteria2Server := mkServer {
  port : Z;
  cert_path : Path;
  key_path : Path
}.

Section server.
(** The PEM serialisations: [cert.public_bytes(Encoding.PEM)] and
    [private_key.private_bytes(PEM, PKCS8, NoEncryption())]. *)
Variable public_bytes : Certificate → list Byte.byte.
Variable private_bytes : RSAPrivateKey → list Byte.byte.

(** [rsa.generate_private_key(public_exponent=, key_size=)]. *)
Definition generate_private_key (public_exponent key_size : Z) : M RSAPrivateKey :=
  r ← urandom; mret (mkPrivateKey public_exponent key_size r).

(** [x509.random_serial_number()]: twenty random bytes, shifted right once. *)
Definition random_serial_number : M Z :=
  r ← urandom; mret (Z.shiftr (r mod 2 ^ 160) 1).

(** Lines 51-60 of [_generate_certs]: resolve the two paths. *)
Definition resolve_paths (self : Hysteria2Server) : M (Path * Path) :=
  let cert_path := cert_path self in
  let key_path := key_path self in
  if negb (is_absolute cert_path)
  then base_dir ← getcwd;
       mret (joinpath base_dir cert_path, joinpath base_dir key_path)
  else mret (cert_path, key_path).

(** Lines 65-71: create the directories, check the first is writable. *)
Definition create_directories (cert_path key_path : Path) : M unit :=
  mkdir (parent cert_path);;
  mkdir (parent key_path);;
  writable ← access_W_OK (parent cert_path);
  if negb writable
  then raise (PermissionError ("Cannot write to " +:+ str (parent cert_path)))
  else mret tt.

(** A library call that only returns or raises, made in the world. *)
Definition call {A} (r : result A) : M A := λ w, (w, r).

(** Lines 73-103: the private key and the certificate signed with it.
    The builder is given the serial number, then the first clock
    reading, then the second one plus 365 days, and may refuse each. *)
Definition build_identity : M (RSAPrivateKey * Certificate) :=
  private_key ← generate_private_key 65537 2048;
  let subject := [
    (COUNTRY_NAME, "US");
    (STATE_OR_PROVINCE_NAME, "CA");
    (LOCALITY_NAME, "SF");
    (ORGANIZATION_NAME, "Smite Panel");
    (COMMON_NAME, "Smite CA")
  ] in
  let issuer := subject in
  serial ← random_serial_number;
  call (check_serial_number serial);;
  before ← utcnow;
  call (check_not_valid_before before);;
  now ← utcnow;
  after ← call (datetime_add_days now 365);
  call (check_not_valid_after before after);;
  mret (private_key,
        mkCertificate subject issuer (public_key private_key) serial
          before after
          [mkExtension (BasicConstraints true None) true]
          private_key SHA256).

(** Whether the builder will take what [build_identity] is about to
    hand it in [w]: the serial number from the second draw, the next
    clock reading, and the one after it plus 365 days. *)
Definition builder_accepts (w : world) : bool :=
  let serial := Z.shiftr (w_entropy w (Datatypes.S (w_draws w)) mod 2 ^ 160) 1 in
  let before := w_clock w (w_ticks w) in
  let after := (w_clock w (Datatypes.S (w_ticks w)) + timedelta_days 365)%Z in
  (0 <? serial)%Z && (EARLIEST_UTC_TIME <=? before)%Z && (before <=? after)%Z
  && (after <=? datetime_max)%Z.

(** Lines 105-116: write the certificate. *)
Definition write_certificate (cert_path : Path) (cert : Certificate) : M unit :=
  os.try_except
    (let cert_bytes := public_bytes cert in
     write_file cert_path cert_bytes;;
     size ← stat_st_size cert_path;
     (if decide (size = 0)
      then raise (IOError ("Certificate file is empty after write: " +:+ str cert_path))
      else mret tt);;
     size ← stat_st_size cert_path;
     log INFO ("Certificate written successfully (" +:+ pretty size +:+ " bytes)"))
    (λ e, log ERROR ("Error writing certificate: " +:+ exc_str e);; raise e).

(** Lines 118-133: write the private key. *)
Definition write_private_key (key_path : Path) (private_key : RSAPrivateKey) : M unit :=
  os.try_except
    (let key_bytes := private_bytes private_key in
     write_file key_path key_bytes;;
     size ← stat_st_size key_path;
     (if decide (size = 0)
      then raise (IOError ("Key file is empty after write: " +:+ str key_path))
      else mret tt);;
     size ← stat_st_size key_path;
     log INFO ("Key written successfully (" +:+ pretty size +:+ " bytes)"))
    (λ e, log ERROR ("Error writing key: " +:+ exc_str e);; raise e).

(** [Hysteria2Server._generate_certs]; returns [self] as updated. *)
Definition _generate_certs (self : Hysteria2Server) : M Hysteria2Server :=
  '(cert_path, key_path) ← resolve_paths self;
  log INFO ("Generating certificate at: " +:+ str cert_path);;
  log INFO ("Generating key at: " +:+ str key_path);;
  create_directories cert_path key_path;;
  '(private_key, cert) ← build_identity;
  write_certificate cert_path cert;;
  write_private_key key_path private_key;;
  let self := mkServer (port self) cert_path key_path in
  log INFO ("Generated CA certificate at " +:+ str cert_path);;
  mret self.

(** Lines 51-103 on their own: all of [_generate_certs] that comes before
    the two writes, with what it hands to them. *)
Definition before_writes (self : Hysteria2Server)
  : M (Path * Path * RSAPrivateKey * Certificate) :=
  '(cert_path, key_path) ← resolve_paths self;
  log INFO ("Generating certificate at: " +:+ str cert_path);;
  log INFO ("Generating key at: " +:+ str key_path);;
  create_directories cert_path key_path;;
  '(private_key, cert) ← build_identity;
  mret (cert_path, key_path, private_key, cert).

(** [Hysteria2Server.start]; returns [self] as updated. *)
Definition start (self : Hysteria2Server) : M Hysteria2Server :=
  let cert_path := cert_path self in
  let key_path := key_path self in
  cert_exists ← exists_ cert_path;
  key_exists ← exists_ key_path;
  self ← (if negb cert_exists || negb key_exists
          then _generate_certs self
          else mret self);
  log INFO ("Hysteria2 server starting on port " +:+ pretty (port self));;
  mret self.

End server.

End hysteria2_server.

(** ** Concrete inputs to run the model on *)

Module examples.
Import adapter_manager.

Definition fixed_usage (mb : num) : adapter := Adapter (λ _, Ok mb).

Definition broken_meter : adapter :=
  Adapter (λ _, Raise (error "RuntimeError" "stats socket closed")).

(** A manager whose whole state is its dict of active tunnels and which
    knows a single tunnel type. *)
Definition toy := gmap string adapter.

#[global] Instance toy_manager : AdapterManager toy := {|
  active_tunnels s := s;
  apply_tunnel tunnel_id tunnel_type _ s :=
    if decide (tunnel_type = "wireguard")
    then (<[tunnel_id := fixed_usage (Float (Finite 3 (-1)))]> s, Ok tt)
    else (s, Raise (error "UnsupportedTunnelTypeError"
                          ("Unsupported tunnel type: " +:+ tunnel_type)));
  remove_tunnel tunnel_id s :=
    match s !! tunnel_id with
    | Some _ => (delete tunnel_id s, Ok tt)
    | None => (s, Raise (error "NotFoundError" ("Tunnel not found: " +:+ tunnel_id)))
    end;
  get_tunnel_status tunnel_id s :=
    match s !! tunnel_id with
    | Some _ => (s, Ok (VDict [("tunnel_id", VStr tunnel_id); ("state", VStr "Active")]))
    | None => (s, Raise (error "NotFoundError" ("Tunnel not found: " +:+ tunnel_id)))
    end
|}.

Definition no_tunnels : toy := ∅.
Definition one_tunnel : toy := {[ "t1" := fixed_usage (Float (Finite 3 (-1))) ]}.
Definition one_broken : toy := {[ "t1" := broken_meter ]}.

(** *** A panel to start *)
Import pathlib os x509 hysteria2_server.

(** Stand-ins for the PEM encoders that show the fields they encode. *)
Definition toy_public_bytes (c : Certificate) : list Byte.byte :=
  String.list_byte_of_string
    ("CERT " +:+ pretty (serial_number c) +:+ " " +:+ pretty (not_valid_before c)
             +:+ " " +:+ pretty (not_valid_after c)).

Definition toy_private_bytes (k : RSAPrivateKey) : list Byte.byte :=
  String.list_byte_of_string ("KEY " +:+ pretty (secret k)).

Definition server0 : Hysteria2Server :=
  mkServer 4443 (mkPath false ["certs"; "ca.crt"]) (mkPath false ["certs"; "ca.key"]).

Definition ca_crt : list string := ["opt"; "smite"; "certs"; "ca.crt"].
Definition ca_key : list string := ["opt"; "smite"; "certs"; "ca.key"].

Definition world_with (root : node) (now : Z) : world :=
  mkWorld root ["opt"; "smite"] [] (λ k, now + Z.of_nat k)%Z 0
          (λ k, 1000 + Z.of_nat k)%Z 0 [].

(** /opt/smite exists and is empty. *)
Definition fresh_root : node :=
  Dir true {[ "opt" := Dir true {[ "smite" := Dir true ∅ ]} ]}.

(** /opt/smite/certs exists but may not be written to. *)
Definition locked_root : node :=
  Dir true {[ "opt" := Dir true {[ "smite" := Dir true {[ "certs" := Dir false ∅ ]} ]} ]}.

(** An identity issued at second 0 is in place; it ran out after 365 days. *)
Definition old_key : RSAPrivateKey := mkPrivateKey 65537 2048 7.

Definition old_cert : Certificate :=
  mkCertificate [(COMMON_NAME, "Smite CA")] [(COMMON_NAME, "Smite CA")]
    (public_key old_key) 1 0 (timedelta_days 365)
    [mkExtension (BasicConstraints true None) true] old_key SHA256.

Definition issued_root : node :=
  Dir true {[ "opt" := Dir true {[ "smite" := Dir true {[ "certs" :=
    Dir true {[ "ca.crt" := File (toy_public_bytes old_cert);
                "ca.key" := File (toy_private_bytes old_key) ]} ]} ]} ]}.

Definition fresh_world : world := world_with fresh_root 1700000000.
Definition locked_world : world := world_with locked_root 1700000000.
(** 400 days after [old_cert] was issued. *)
Definition expired_world : world := world_with issued_root (timedelta_days 400).

(** [server0] once its paths are resolved. *)
Definition server1 : Hysteria2Server :=
  mkServer 4443 (mkPath true ca_crt) (mkPath true ca_key).

(** The identity [fresh_world] issues: first draw 1000, second 1001. *)
Definition fresh_key : RSAPrivateKey := mkPrivateKey 65537 2048 1000.

Definition fresh_cert : Certificate :=
  mkCertificate
    [(COUNTRY_NAME, "US"); (STATE_OR_PROVINCE_NAME, "CA"); (LOCALITY_NAME, "SF");
     (ORGANIZATION_NAME, "Smite Panel"); (COMMON_NAME, "Smite CA")]
    [(COUNTRY_NAME, "US"); (STATE_OR_PROVINCE_NAME, "CA"); (LOCALITY_NAME, "SF");
     (ORGANIZATION_NAME, "Smite Panel"); (COMMON_NAME, "Smite CA")]
    (public_key fresh_key) 500 1700000000 (1700000001 + timedelta_days 365)
    [mkExtension (BasicConstraints true None) true] fresh_key SHA256.

(** An encoder that produces nothing. *)
Definition blank_bytes (c : Certificate) : list Byte.byte := [].

(** The runs the examples below look at. *)
Definition fresh_run : world * result Hysteria2Server :=
  _generate_certs toy_public_bytes toy_private_bytes server0 fresh_world.

Definition expired_start : world * result Hysteria2Server :=
  start toy_public_bytes toy_private_bytes server0 expired_world.

Definition fresh_start : world * result Hysteria2Server :=
  start toy_public_bytes toy_private_bytes server0 fresh_world.

End examples.

(** ** [LoggingMiddleware] of src/node/app/routers/agent.py *)

Module LoggingMiddleware.

(** A request as the middleware uses it. [_receive] is the channel the
    body arrives on, given by the [http.request] messages it still
    delivers, each with its piece of the body. *)
Record Request := mkRequest {
  method : string;
  url_path : string;
  _receive : list (list Byte.byte)
}.

Record Response := mkResponse {
  status_code : Z;
  content : list Byte.byte
}.

(** [await request.body()]: the pieces the channel delivers, joined. *)
Definition body (request : Request) : list Byte.byte := concat (_receive request).

Section dispatch.
Context {S : Type}.
(** [bytes.decode()], and the application behind [call_next], which
    works on a state of its own. *)
Variable decode : list Byte.byte → result string.
Variable call_next : Request → S → S * result Response.

(** [LoggingMiddleware.dispatch]. The list of strings holds the lines
    the middleware has printed to [sys.stderr]. *)
Definition dispatch (request : Request) (s : S) (stderr : list string)
  : S * list string * result Response :=
  let logged := bool_decide (url_path request = "/api/agent/tunnels/apply") in
  let before : list string * result Request :=
    if logged then
      let stderr :=
        (stderr ++ ["🔵 MIDDLEWARE: " +:+ method request +:+ " " +:+ url_path request])%list in
      let body := body request in
      match decode body with
      | Ok text =>
          ((stderr ++ ["🔵 MIDDLEWARE: Body: " +:+ text])%list,
           Ok (mkRequest (method request) (url_path request) [body]))
      | Raise e => (stderr, Raise e)
      end
    else (stderr, Ok request) in
  match before with
  | (stderr, Raise e) => (s, stderr, Raise e)
  | (stderr, Ok request) =>
      match call_next request s with
      | (s', Ok response) =>
          (s',
           if logged
           then (stderr ++ ["🔵 MIDDLEWARE: Response status: "
                              +:+ pretty (status_code response)])%list
           else stderr,
           Ok response)
      | (s', Raise e) => (s', stderr, Raise e)
      end
  end.

End dispatch.

End LoggingMiddleware.

(** ** More inputs: odd meters, other directory layouts, requests *)

Module scenarios.
Import adapter_manager pathlib os x509 hysteria2_server examples LoggingMiddleware.

(** Meters that report 2^1020 MB, not-a-number, and half a byte. *)
Definition huge_tunnel : toy := {[ "t1" := fixed_usage (Float (Finite (2 ^ 52) 968)) ]}.
Definition nan_tunnel : toy := {[ "t1" := fixed_usage (Float NaN) ]}.
Definition half_byte_tunnel : toy := {[ "t1" := fixed_usage (Float (Finite 1 (-21))) ]}.

(** /opt/smite/certs is there, empty and writable. *)
Definition ready_root : node :=
  Dir true {[ "opt" := Dir true {[ "smite" := Dir true {[ "certs" := Dir true ∅ ]} ]} ]}.

Definition ready_world : world := world_with ready_root 1700000000.

(** The key goes to a directory of its own, /opt/smite/keys, which may
    not be written to. *)
Definition split_server : Hysteria2Server :=
  mkServer 4443 (mkPath false ["certs"; "ca.crt"]) (mkPath false ["keys"; "ca.key"]).

Definition split_root : node :=
  Dir true {[ "opt" := Dir true {[ "smite" :=
    Dir true {[ "certs" := Dir true ∅; "keys" := Dir false ∅ ]} ]} ]}.

Definition split_world : world := world_with split_root 1700000000.

(** One file configured for both the certificate and the key. *)
Definition pem_server : Hysteria2Server :=
  mkServer 4443 (mkPath false ["certs"; "ca.pem"]) (mkPath false ["certs"; "ca.pem"]).

Definition pem_run : world * result Hysteria2Server :=
  _generate_certs toy_public_bytes toy_private_bytes pem_server fresh_world.

(** The world [_generate_certs] has reached in [fresh_world] when the
    writes begin. *)
Definition fresh_before_writes : world := fst (before_writes server0 fresh_world).

Definition blank_certificate_write : world * result unit :=
  write_certificate blank_bytes (mkPath true ca_crt) fresh_cert fresh_before_writes.

(** A stand-in for [bytes.decode()] that takes ASCII only. *)
Definition decode_ascii (b : list Byte.byte) : result string :=
  if forallb (λ x, (Byte.to_N x <? 128)%N) b
  then Ok (String.string_of_list_byte b)
  else Raise (error "UnicodeDecodeError" "'utf-8' codec can't decode bytes").

(** An application that counts the requests it serves and answers each
    with the body it read. *)
Definition counting_app (request : Request) (served : nat) : nat * result Response :=
  (Datatypes.S served, Ok (mkResponse 200 (body request))).

(** A body that arrives in two pieces, one that is not text, and a
    request for another route. *)
Definition apply_request : Request :=
  mkRequest "POST" "/api/agent/tunnels/apply"
    [String.list_byte_of_string "tunnel_id="; String.list_byte_of_string "t1"].

Definition garbled_request : Request :=
  mkRequest "POST" "/api/agent/tunnels/apply" [[Byte.xff]].

Definition status_request : Request := mkRequest "GET" "/api/agent/status" [].

End scenarios.

(** * Properties of the agent endpoints *)

Module agent_spec.
Import adapter_manager agent examples.

(** No handler path turns a raised exception into a response unless the
    source says so. *)
Lemma or_500_Raise {A} (e : exc) (body : A → dict) :
  or_500 (Raise e) body =
    if derives_Exception e then RaisedHTTPException 500 (exc_str e) else Propagated e.
Proof. reflexivity. Qed.

Lemma or_500_not_Returned {A} (e : exc) (body : A → dict) (b : dict) :
  or_500 (Raise e) body ≠ Returned b.
Proof. rewrite or_500_Raise. by destruct (derives_Exception e). Qed.

(** With integer megabytes the reported bytes are the product. *)
Lemma int_mul_1024_Int (n : Z) :
  int (mul_1024 (mul_1024 (Int n))) = Ok (n * 1024 * 1024)%Z.
Proof. reflexivity. Qed.

(** A float that stays finite is scaled by [2^20] and truncated. *)
Lemma int_mul_1024_Finite (m e : Z) :
  float_valid (Finite m e) → (Z.abs m * 2 ^ (e + 20) < 2 ^ 1024)%Z →
  int (mul_1024 (mul_1024 (Float (Finite m e)))) =
    Ok (if (0 <=? e + 20)%Z then m * 2 ^ (e + 20) else Z.quot m (2 ^ (- (e + 20))))%Z.
Proof.
  intros [_ [He _]] Hfin. unfold mul_1024 at 2.
  assert (Z.abs m * 2 ^ (e + 10) ≤ Z.abs m * 2 ^ (e + 20))%Z as Hle.
  { apply Z.mul_le_mono_nonneg_l; [lia |]. apply Z.pow_le_mono_r; lia. }
  destruct (Z.ltb_spec (Z.abs m * 2 ^ (e + 10)) (2 ^ 1024)) as [_ | Hge]; [| lia].
  unfold mul_1024. replace (e + 10 + 10)%Z with (e + 20)%Z by lia.
  destruct (Z.ltb_spec (Z.abs m * 2 ^ (e + 20)) (2 ^ 1024)) as [_ | Hge]; [| lia].
  reflexivity.
Qed.

Section endpoints.
Context {S : Type} `{!AdapterManager S}.

(** C1. POST /tunnels/apply answers [{status: success}] when the
    manager's [apply_tunnel] succeeds; when it raises an error [e]
    the caller gets [HTTPException(500, detail=str(e))]; whatever is
    raised, the endpoint never answers with a body instead. *)
Theorem apply_tunnel_success_or_500 (data : TunnelApply.t) (s : S) :
  let call := adapter_manager.apply_tunnel (TunnelApply.tunnel_id data)
                (TunnelApply.type data) (TunnelApply.spec data) s in
  (∀ s' u, call = (s', Ok u) →
     ∃ body, apply_tunnel data s = (s', Returned body) ∧
             dict_get "status" body = Some (VStr "success")) ∧
  (∀ s' e, call = (s', Raise e) → derives_Exception e = true →
     apply_tunnel data s = (s', RaisedHTTPException 500 (exc_str e))) ∧
  (∀ s' e, call = (s', Raise e) →
     ∀ body, snd (apply_tunnel data s) ≠ Returned body).
Proof.
  unfold apply_tunnel. cbv zeta. repeat split.
  - intros s' u ->. eexists. split; reflexivity.
  - intros s' e -> He. cbn. by rewrite He.
  - intros s' e -> body. cbn [snd]. apply or_500_not_Returned.
Qed.

(** C5. GET /tunnels/status answers [{status: success, data: r}] with
    the record [r] the manager's [get_tunnel_status] returned; when
    that raises an error [e] (the NotFoundError of an unknown id
    included) the caller gets [HTTPException(500, detail=str(e))], and
    no raise is ever answered with a body. *)
Theorem get_tunnel_status_success_or_500 (tunnel_id : string) (s : S) :
  let call := adapter_manager.get_tunnel_status tunnel_id s in
  (∀ s' r, call = (s', Ok r) →
     get_tunnel_status tunnel_id s =
       (s', Returned [("status", VStr "success"); ("data", r)])) ∧
  (∀ s' e, call = (s', Raise e) → derives_Exception e = true →
     get_tunnel_status tunnel_id s = (s', RaisedHTTPException 500 (exc_str e))) ∧
  (∀ s' e, call = (s', Raise e) →
     ∀ body, snd (get_tunnel_status tunnel_id s) ≠ Returned body).
Proof.
  unfold get_tunnel_status. cbv zeta. repeat split.
  - by intros s' r ->.
  - intros s' e -> He. cbn. by rewrite He.
  - intros s' e -> body. cbn [snd]. apply or_500_not_Returned.
Qed.

(** C2, as the code has it. For a tunnel id that is not among the
    active tunnels, POST /usage/push acknowledges with
    [{status: ok, bytes_used}] carrying the caller's own figure. *)
Theorem push_usage_inactive_echoes (data : UsagePush.t) (s : S) :
  active_tunnels s !! UsagePush.tunnel_id data = None →
  push_usage data s =
    Returned [("status", VStr "ok"); ("bytes_used", VInt (UsagePush.bytes_used data))].
Proof. intros Hnone. unfold push_usage. by rewrite Hnone. Qed.

(** C3. When the tunnel id has an adapter whose usage is available,
    POST /usage/push answers [{status: ok, bytes_used}] with
    [int(usage_mb * 1024 * 1024)] of the adapter's figure, whatever
    the caller sent; an exception raised while sampling is answered
    with [{status: error, message: str(e)}]. *)
Theorem push_usage_server_authoritative (data : UsagePush.t) (s : S) (a : adapter) :
  active_tunnels s !! UsagePush.tunnel_id data = Some a →
  (∀ usage_mb bytes,
     get_usage_mb a (UsagePush.tunnel_id data) = Ok usage_mb →
     int (mul_1024 (mul_1024 usage_mb)) = Ok bytes →
     push_usage data s = Returned [("status", VStr "ok"); ("bytes_used", VInt bytes)]) ∧
  (∀ e,
     (usage_mb ← get_usage_mb a (UsagePush.tunnel_id data);
      int (mul_1024 (mul_1024 usage_mb))) = Raise e →
     derives_Exception e = true →
     push_usage data s =
       Returned [("status", VStr "error"); ("message", VStr (exc_str e))]).
Proof.
  intros Ha. unfold push_usage. rewrite Ha. split.
  - intros usage_mb bytes -> Hint. cbn. by rewrite Hint.
  - intros e Hraise He.
    destruct (get_usage_mb a (UsagePush.tunnel_id data)) as [usage_mb | e'];
      cbn in Hraise |- *.
    + rewrite Hraise. cbn. by rewrite He.
    + injection Hraise as ->. by rewrite He.
Qed.

(** C4. GET /status answers [{status: ok, active_tunnels: n,
    tunnels: ids}] where [ids] lists each tracked tunnel id once and
    [n] is their number, the length of [ids]. *)
Theorem get_status_counts_tunnels (s : S) :
  ∃ ids : list string,
    get_status s =
      Returned [("status", VStr "ok");
                ("active_tunnels", VInt (Z.of_nat (length ids)));
                ("tunnels", VList (VStr <$> ids))] ∧
    length ids = size (active_tunnels s) ∧
    NoDup ids ∧
    ∀ tunnel_id, tunnel_id ∈ ids ↔ is_Some (active_tunnels s !! tunnel_id).
Proof.
  exists (map_to_list (active_tunnels s)).*1. repeat split.
  - unfold get_status. by rewrite length_fmap, length_map_to_list.
  - by rewrite length_fmap, length_map_to_list.
  - apply NoDup_fst_map_to_list.
  - intros [[k a] [-> Hin]]%list_elem_of_fmap. apply elem_of_map_to_list in Hin. eauto.
  - intros [a Ha]. apply list_elem_of_fmap. exists (tunnel_id, a).
    split; [done |]. by apply elem_of_map_to_list.
Qed.

End endpoints.

Lemma apply_tunnel_success_or_500_witness :
  apply_tunnel (TunnelApply.Build "t1" "xray" "bogus" []) no_tunnels =
    (no_tunnels, RaisedHTTPException 500 "Unsupported tunnel type: bogus").
Proof.
  apply (proj1 (proj2 (apply_tunnel_success_or_500
                         (TunnelApply.Build "t1" "xray" "bogus" []) no_tunnels))
               no_tunnels
               (error "UnsupportedTunnelTypeError" "Unsupported tunnel type: bogus"));
    reflexivity.
Defined.

Lemma get_tunnel_status_success_or_500_witness :
  get_tunnel_status "t9" one_tunnel =
    (one_tunnel, RaisedHTTPException 500 "Tunnel not found: t9").
Proof.
  apply (proj1 (proj2 (get_tunnel_status_success_or_500 "t9" one_tunnel))
               one_tunnel (error "NotFoundError" "Tunnel not found: t9"));
    reflexivity.
Defined.

(** C2, as the specification has it, fails: nothing is active, the
    caller reports 0 bytes for "t1", and the answer is [status: ok] with
    that 0 rather than an error. *)
Lemma push_usage_inactive_not_error :
  active_tunnels no_tunnels !! "t1" = None ∧
  push_usage (UsagePush.Build "t1" 0) no_tunnels =
    Returned [("status", VStr "ok"); ("bytes_used", VInt 0)] ∧
  ∀ body, push_usage (UsagePush.Build "t1" 0) no_tunnels = Returned body →
          dict_get "status" body ≠ Some (VStr "error").
Proof.
  split; [reflexivity |]. split; [reflexivity |].
  intros body Hbody. vm_compute in Hbody. injection Hbody as <-. discriminate.
Qed.

Lemma push_usage_inactive_echoes_witness :
  push_usage (UsagePush.Build "t1" 4096) no_tunnels =
    Returned [("status", VStr "ok"); ("bytes_used", VInt 4096)].
Proof.
  apply (push_usage_inactive_echoes (UsagePush.Build "t1" 4096) no_tunnels).
  reflexivity.
Defined.

Lemma push_usage_server_authoritative_witness :
  push_usage (UsagePush.Build "t1" 7) one_tunnel =
    Returned [("status", VStr "ok"); ("bytes_used", VInt 1572864)].
Proof.
  assert (active_tunnels one_tunnel !! "t1" = Some (fixed_usage (Float (Finite 3 (-1)))))
    as Hactive by (vm_compute; reflexivity).
  apply (proj1 (push_usage_server_authoritative (UsagePush.Build "t1" 7) one_tunnel
                  (fixed_usage (Float (Finite 3 (-1)))) Hactive)
               (Float (Finite 3 (-1))) 1572864%Z);
    reflexivity.
Defined.

End agent_spec.

(** * Properties of the file-system model *)

Module os_facts.
Import pathlib os.

Lemma file_at_cons (c : string) (q : list string) (w : bool) (es : gmap string node) :
  file_at (c :: q) (Dir w es) = es !! c ≫= file_at q.
Proof. unfold file_at. cbn. by destruct (es !! c). Qed.

Lemma file_at_under_File (q : list string) (c : list Byte.byte) :
  q ≠ [] → file_at q (File c) = None.
Proof. by destruct q. Qed.

Lemma file_at_empty_dir (q : list string) (w : bool) : file_at q (Dir w ∅) = None.
Proof. destruct q; [done |]. by rewrite file_at_cons, lookup_empty. Qed.

(** *** [mkdir(parents=True, exist_ok=True)] *)

Lemma mkdir_parents_existing (p : list string) : ∀ n w es,
  node_at p n = Some (Dir w es) → mkdir_parents p n = Ok n.
Proof.
  induction p as [| c p IH]; intros n w es Hat; cbn in *.
  - by injection Hat as ->.
  - destruct n as [| w0 es0]; [done |].
    destruct (es0 !! c) as [child |] eqn:Hc; [| done]. cbn in Hat.
    rewrite (IH _ _ _ Hat). cbn. by rewrite insert_id.
Qed.

Lemma mkdir_parents_is_dir (p : list string) : ∀ n n',
  mkdir_parents p n = Ok n' → ∃ w es, node_at p n' = Some (Dir w es).
Proof.
  induction p as [| c p IH]; intros n n' Hmk; cbn in *.
  - destruct n; [done |]. injection Hmk as <-. eauto.
  - destruct n as [| w0 es0]; [done |].
    destruct (es0 !! c) as [child |] eqn:Hc.
    + destruct (mkdir_parents p child) as [child' |] eqn:Hrec; [| done].
      injection Hmk as <-. cbn. rewrite lookup_insert_eq. cbn. eauto.
    + destruct w0; [| done].
      destruct (mkdir_parents p (Dir true ∅)) as [child' |] eqn:Hrec; [| done].
      injection Hmk as <-. cbn. rewrite lookup_insert_eq. cbn. eauto.
Qed.

(** Creating directories changes no file. *)
Lemma mkdir_parents_files (p : list string) : ∀ n n' q,
  mkdir_parents p n = Ok n' → file_at q n' = file_at q n.
Proof.
  induction p as [| c p IH]; intros n n' q Hmk; cbn in *.
  - destruct n; [done |]. by injection Hmk as <-.
  - destruct n as [| w0 es0]; [done |].
    destruct (es0 !! c) as [child |] eqn:Hc.
    + destruct (mkdir_parents p child) as [child' |] eqn:Hrec; [| done].
      injection Hmk as <-. destruct q as [| c' q]; [done |].
      rewrite !file_at_cons. destruct (decide (c' = c)) as [-> | Hne].
      * rewrite lookup_insert_eq, Hc. cbn. eauto.
      * by rewrite lookup_insert_ne.
    + destruct w0; [| done].
      destruct (mkdir_parents p (Dir true ∅)) as [child' |] eqn:Hrec; [| done].
      injection Hmk as <-. destruct q as [| c' q]; [done |].
      rewrite !file_at_cons. destruct (decide (c' = c)) as [-> | Hne].
      * rewrite lookup_insert_eq, Hc. cbn.
        rewrite (IH _ _ q Hrec). apply file_at_empty_dir.
      * by rewrite lookup_insert_ne.
Qed.

(** ... and leaves the write permission of every directory as it was. *)
Lemma mkdir_parents_flag (p : list string) : ∀ n n' q w es,
  mkdir_parents p n = Ok n' → node_at q n = Some (Dir w es) →
  ∃ es', node_at q n' = Some (Dir w es').
Proof.
  induction p as [| c p IH]; intros n n' q w es Hmk Hat; cbn in Hmk.
  - destruct n; [done |]. injection Hmk as <-. eauto.
  - destruct n as [| w0 es0]; [done |].
    assert (∀ child', n' = Dir w0 (<[c:=child']> es0) →
            (∀ child q' w' es', es0 !! c = Some child → node_at q' child = Some (Dir w' es') →
               ∃ es'', node_at q' child' = Some (Dir w' es'')) →
            ∃ es', node_at q n' = Some (Dir w es')) as Hstep.
    { intros child' -> Hchild. destruct q as [| c' q]; cbn in Hat |- *.
      - injection Hat as <- <-. eauto.
      - destruct (decide (c' = c)) as [-> | Hne].
        + rewrite lookup_insert_eq. cbn.
          destruct (es0 !! c) as [child |] eqn:Hc; [| done]. cbn in Hat. eauto.
        + rewrite lookup_insert_ne by done. eauto. }
    destruct (es0 !! c) as [child |] eqn:Hc.
    + destruct (mkdir_parents p child) as [child' |] eqn:Hrec; [| done].
      injection Hmk as <-. apply (Hstep child' eq_refl).
      intros ? q' w' es' [= <-] Hq'. eauto.
    + destruct w0; [| done].
      destruct (mkdir_parents p (Dir true ∅)) as [child' |] eqn:Hrec; [| done].
      injection Hmk as <-. apply (Hstep child' eq_refl). intros; discriminate.
Qed.

(** *** [open(p, "wb")] and [write] *)

Lemma open_wb_file (p : list string) : ∀ n n',
  open_wb p n = Ok n' → file_at p n' = Some [].
Proof.
  induction p as [| c p IH]; intros n n' Hop; cbn in Hop.
  - destruct n; [| done]. by injection Hop as <-.
  - destruct n as [| w0 es0]; [done |].
    destruct (es0 !! c) as [child |] eqn:Hc.
    + destruct (open_wb p child) as [child' |] eqn:Hrec; [| done].
      injection Hop as <-. rewrite file_at_cons, lookup_insert_eq. cbn. eauto.
    + destruct p; [| done]. destruct w0; [| done].
      injection Hop as <-. by rewrite file_at_cons, lookup_insert_eq.
Qed.

Lemma open_wb_frame (p : list string) : ∀ n n' q,
  open_wb p n = Ok n' → q ≠ p → file_at q n' = file_at q n.
Proof.
  induction p as [| c p IH]; intros n n' q Hop Hne; cbn in Hop.
  - destruct n; [| done]. injection Hop as <-.
    by rewrite !file_at_under_File.
  - destruct n as [| w0 es0]; [done |].
    destruct (es0 !! c) as [child |] eqn:Hc.
    + destruct (open_wb p child) as [child' |] eqn:Hrec; [| done].
      injection Hop as <-. destruct q as [| c' q]; [done |].
      rewrite !file_at_cons. destruct (decide (c' = c)) as [-> | Hc'].
      * rewrite lookup_insert_eq, Hc. cbn. apply (IH _ _ _ Hrec). congruence.
      * by rewrite lookup_insert_ne.
    + destruct p; [| done]. destruct w0; [| done].
      injection Hop as <-. destruct q as [| c' q]; [done |].
      rewrite !file_at_cons. destruct (decide (c' = c)) as [-> | Hc'].
      * rewrite lookup_insert_eq, Hc. cbn. apply file_at_under_File. congruence.
      * by rewrite lookup_insert_ne.
Qed.

Lemma write_bytes_file (p : list string) (data : list Byte.byte) : ∀ n,
  is_Some (file_at p n) → file_at p (write_bytes p data n) = Some data.
Proof.
  induction p as [| c p IH]; intros n [old Hold]; cbn.
  - by destruct n.
  - destruct n as [| w0 es0]; [done |]. rewrite file_at_cons in Hold |- *.
    rewrite lookup_alter_eq. destruct (es0 !! c) as [child |]; [| done]. cbn in *. eauto.
Qed.

Lemma write_bytes_frame (p : list string) (data : list Byte.byte) : ∀ n q,
  q ≠ p → file_at q (write_bytes p data n) = file_at q n.
Proof.
  induction p as [| c p IH]; intros n q Hne; cbn.
  - destruct n; [| done]. by rewrite !file_at_under_File.
  - destruct n as [| w0 es0]; [done |]. destruct q as [| c' q]; [done |].
    rewrite !file_at_cons. destruct (decide (c' = c)) as [-> | Hc'].
    + rewrite lookup_alter_eq. destruct (es0 !! c) as [child |]; [| done].
      cbn. apply IH. congruence.
    + by rewrite lookup_alter_ne.
Qed.

(** *** Running a computation *)

Lemma bind_Ok {A B} (m : M A) (f : A → M B) (w w1 : world) (a : A) :
  m w = (w1, Ok a) → (m ≫= f) w = f a w1.
Proof. intros Hm. unfold mbind, M_bind. by rewrite Hm. Qed.

Lemma bind_Raise {A B} (m : M A) (f : A → M B) (w w1 : world) (e : exc) :
  m w = (w1, Raise e) → (m ≫= f) w = (w1, Raise e).
Proof. intros Hm. unfold mbind, M_bind. by rewrite Hm. Qed.

Lemma bind_inv {A B} (m : M A) (f : A → M B) (w w' : world) (r : result B) :
  (m ≫= f) w = (w', r) →
  (∃ w1 a, m w = (w1, Ok a) ∧ f a w1 = (w', r)) ∨
  (∃ e, m w = (w', Raise e) ∧ r = Raise e).
Proof.
  unfold mbind, M_bind. destruct (m w) as [w1 [a | e]]; intros Hrun.
  - left. eauto.
  - right. injection Hrun as <- <-. eauto.
Qed.

Lemma try_except_inv {A} (body : M A) (handler : exc → M A) (w w' : world) (r : result A) :
  os.try_except body handler w = (w', r) →
  (∃ a, body w = (w', Ok a) ∧ r = Ok a) ∨
  (∃ e, body w = (w', Raise e) ∧ r = Raise e ∧ derives_Exception e = false) ∨
  (∃ w1 e, body w = (w1, Raise e) ∧ derives_Exception e = true ∧ handler e w1 = (w', r)).
Proof.
  unfold os.try_except. destruct (body w) as [w1 [a | e]]; intros Hrun.
  - left. injection Hrun as <- <-. eauto.
  - right. destruct (derives_Exception e) eqn:He.
    + right. eauto 6.
    + left. injection Hrun as <- <-. eauto.
Qed.

(** *** What a run may change *)

Lemma evolves_refl (P : list string → Prop) (w : world) : evolves P w w.
Proof. repeat split; try done. exists []. by split. Qed.

Lemma evolves_mono (P Q : list string → Prop) (w w' : world) :
  (∀ q, P q → Q q) → evolves P w w' → evolves Q w w'.
Proof.
  intros HPQ (Hcwd & Hclock & Hent & (new & Hhist & Hnew) & Hroot).
  repeat split; try done.
  - exists new. split; [done |]. eapply Forall_impl; [exact Hnew |].
    cbn. intros s Hs q Hq. apply Hs. naive_solver.
  - intros q Hq. apply Hroot. naive_solver.
Qed.

Lemma evolves_trans (P : list string → Prop) (w w1 w2 : world) :
  evolves P w w1 → evolves P w1 w2 → evolves P w w2.
Proof.
  intros (Hcwd & Hclock & Hent & (new & Hhist & Hnew) & Hroot)
         (Hcwd' & Hclock' & Hent' & (new' & Hhist' & Hnew') & Hroot').
  repeat split; try congruence.
  - exists (new' ++ new)%list. split; [by rewrite Hhist', Hhist, (assoc_L (++)) |].
    apply Forall_app. split; [| done].
    eapply Forall_impl; [exact Hnew' |]. cbn. intros s Hs q Hq.
    by rewrite Hs, Hroot.
  - intros q Hq. by rewrite Hroot', Hroot.
Qed.

Lemma evolves_states_since (P : list string → Prop) (w w' : world) :
  evolves P w w' →
  Forall (λ s, ∀ q, ¬ P q → file_at q s = file_at q (w_root w)) (states_since w w').
Proof.
  intros (_ & _ & _ & (new & Hhist & Hnew) & _). unfold states_since.
  rewrite Hhist, length_app.
  replace (length new + length (w_history w) - length (w_history w)) with (length new) by lia.
  by rewrite take_app_length.
Qed.

Lemma quiet_evolves (P : list string → Prop) (w w' : world) : quiet w w' → evolves P w w'.
Proof.
  intros (Hroot & Hhist & Hcwd & Hclock & Hent). repeat split; try done.
  - exists []. by split.
  - intros q _. by rewrite Hroot.
Qed.

Lemma log_run (l : level) (msg : string) (w : world) :
  ∃ w', log l msg w = (w', Ok tt) ∧ quiet w w' ∧
        w_ticks w' = w_ticks w ∧ w_draws w' = w_draws w.
Proof. eexists. split; [reflexivity |]. by repeat split. Qed.

Lemma set_root_evolves (P : list string → Prop) (r : node) (w : world) :
  (∀ q, ¬ P q → file_at q r = file_at q (w_root w)) → evolves P w (set_root r w).
Proof.
  intros Hr. repeat split; try done. exists [r]. split; [done |]. by apply Forall_singleton.
Qed.

Lemma mkdir_run (p : Path) (w w' : world) (r : result unit) :
  mkdir p w = (w', r) →
  match mkdir_parents (locate w p) (w_root w) with
  | Ok root => w' = set_root root w ∧ r = Ok tt
  | Raise e => w' = w ∧ r = Raise e
  end.
Proof.
  unfold mkdir, lift_fs. destruct (mkdir_parents _ _); by intros [= <- <-].
Qed.

Lemma mkdir_evolves (P : list string → Prop) (p : Path) (w w' : world) (r : result unit) :
  mkdir p w = (w', r) → evolves P w w'.
Proof.
  intros Hrun%mkdir_run. destruct (mkdir_parents _ _) as [root |] eqn:Hmk.
  - destruct Hrun as [-> _]. apply set_root_evolves.
    intros q _. by apply (mkdir_parents_files _ _ _ _ Hmk).
  - destruct Hrun as [-> _]. apply evolves_refl.
Qed.

Lemma write_file_run (p : Path) (data : list Byte.byte) (w w' : world) (r : result unit) :
  write_file p data w = (w', r) →
  match open_wb (locate w p) (w_root w) with
  | Ok opened =>
      w' = set_root (write_bytes (locate w p) data opened) (set_root opened w) ∧ r = Ok tt
  | Raise e => w' = w ∧ r = Raise e
  end.
Proof.
  unfold write_file, lift_fs, mbind, M_bind.
  destruct (open_wb _ _); cbn; by intros [= <- <-].
Qed.

Lemma write_file_evolves (p : Path) (data : list Byte.byte) (w w' : world) (r : result unit) :
  write_file p data w = (w', r) → evolves (λ q, q = locate w p) w w'.
Proof.
  intros Hrun%write_file_run. destruct (open_wb _ _) as [opened |] eqn:Hop.
  - destruct Hrun as [-> _].
    eapply evolves_trans; apply set_root_evolves; cbn.
    + intros q Hq. by apply (open_wb_frame _ _ _ _ Hop).
    + intros q Hq. by apply write_bytes_frame.
  - destruct Hrun as [-> _]. apply evolves_refl.
Qed.

(** A successful write leaves exactly [data] in the file, after a state
    in which the file was there and empty. *)
Lemma write_file_Ok (p : Path) (data : list Byte.byte) (w w' : world) :
  write_file p data w = (w', Ok tt) →
  file_at (locate w p) (w_root w') = Some data ∧
  ∃ s, s ∈ states_since w w' ∧ file_at (locate w p) s = Some [].
Proof.
  intros Hrun%write_file_run. destruct (open_wb _ _) as [opened |] eqn:Hop.
  - destruct Hrun as [-> _]. pose proof (open_wb_file _ _ _ Hop) as Hempty. split.
    + cbn. apply write_bytes_file. by rewrite Hempty.
    + exists opened. split; [| done]. unfold states_since. cbn.
      replace (Datatypes.S (Datatypes.S (length (w_history w))) - length (w_history w))
        with 2 by lia.
      cbn. set_solver.
  - by destruct Hrun as [_ [=]].
Qed.

(** *** Reading and writing a file *)

Lemma locate_cwd (w w' : world) (p : Path) :
  w_cwd w' = w_cwd w → locate w' p = locate w p.
Proof. intros Hcwd. unfold locate. by rewrite Hcwd. Qed.

Lemma stat_st_size_file (p : Path) (w : world) (c : list Byte.byte) :
  file_at (locate w p) (w_root w) = Some c → stat_st_size p w = (w, Ok (length c)).
Proof.
  unfold file_at, stat_st_size. destruct (node_at _ _) as [[c' | ? ?] |]; [| done..].
  by intros [= ->].
Qed.

Lemma checked_write_run (p : Path) (data : list Byte.byte)
    (empty_msg err_prefix : string) (ok_msg : nat → string) (w w' : world) (r : result unit) :
  os.try_except
    (write_file p data;;
     size ← stat_st_size p;
     (if decide (size = 0) then raise (IOError empty_msg) else mret tt);;
     size ← stat_st_size p;
     log INFO (ok_msg size))
    (λ e, log ERROR (err_prefix +:+ exc_str e);; raise e) w = (w', r) →
  evolves (λ q, q = locate w p) w w' ∧
  w_ticks w' = w_ticks w ∧ w_draws w' = w_draws w ∧
  match r with
  | Ok _ =>
      data ≠ [] ∧ file_at (locate w p) (w_root w') = Some data ∧
      ∃ s, s ∈ states_since w w' ∧ file_at (locate w p) s = Some []
  | Raise e =>
      open_wb (locate w p) (w_root w) = Raise e ∨
      (data = [] ∧ e = IOError empty_msg ∧ ∃ s, s ∈ states_since w w' ∧ file_at (locate w p) s = Some [])
  end.
Proof.
  unfold os.try_except.
  destruct (write_file p data w) as [w1 [[] | e]] eqn:Hwrite.
  - pose proof (write_file_evolves _ _ _ _ _ Hwrite) as Hev.
    pose proof (write_file_Ok _ _ _ _ Hwrite) as (Hfile & s & Hs & Hsfile).
    assert (w_ticks w1 = w_ticks w ∧ w_draws w1 = w_draws w) as [Hticks Hdraws].
    { apply write_file_run in Hwrite. destruct (open_wb _ _); by destruct Hwrite as [-> ?]. }
    assert (stat_st_size p w1 = (w1, Ok (length data))) as Hstat.
    { apply stat_st_size_file. rewrite (locate_cwd w); [done | apply Hev]. }
    rewrite (bind_Ok _ _ _ _ _ Hwrite), (bind_Ok _ _ _ _ _ Hstat).
    destruct (decide (length data = 0)) as [Hzero | Hpos].
    + rewrite (bind_Raise _ _ w1 w1 (IOError empty_msg)) by done.
      unfold mbind, M_bind, log, raise. cbn. intros [= <- <-].
      split; [| split; [done | split; [done |]]].
      * eapply evolves_trans; [exact Hev |]. apply quiet_evolves. by repeat split.
      * right. apply nil_length_inv in Hzero. repeat split; try done.
        exists s. split; [| done]. unfold states_since in *. by cbn.
    + rewrite (bind_Ok _ _ w1 w1 tt) by done. rewrite (bind_Ok _ _ _ _ _ Hstat).
      unfold log. intros [= <- <-].
      split; [| split; [done | split; [done |]]].
      * eapply evolves_trans; [exact Hev |]. apply quiet_evolves. by repeat split.
      * split; [by intros -> |]. split; [done |].
        exists s. split; [| done]. unfold states_since in *. by cbn.
  - rewrite (bind_Raise _ _ _ _ _ Hwrite).
    apply write_file_run in Hwrite.
    destruct (open_wb _ _) as [| e'] eqn:Hop; [by destruct Hwrite |].
    destruct Hwrite as [-> [= ->]].
    destruct (derives_Exception e'); unfold mbind, M_bind, log, raise; cbn;
      intros [= <- <-]; (split; [| by auto]).
    + apply quiet_evolves. by repeat split.
    + apply evolves_refl.
Qed.

Lemma states_since_app (w w' : world) (new : list node) :
  w_history w' = (new ++ w_history w)%list → states_since w w' = new.
Proof.
  intros Hhist. unfold states_since. rewrite Hhist, length_app.
  replace (length new + length (w_history w) - length (w_history w)) with (length new) by lia.
  by rewrite take_app_length.
Qed.

Lemma states_since_between (P Q R : list string → Prop) (w a b c : world) (s : node) :
  evolves P w a → evolves Q a b → evolves R b c →
  s ∈ states_since a b → s ∈ states_since w c.
Proof.
  intros (_ & _ & _ & (n1 & H1 & _) & _) (_ & _ & _ & (n2 & H2 & _) & _)
         (_ & _ & _ & (n3 & H3 & _) & _).
  rewrite (states_since_app a b n2) by done.
  rewrite (states_since_app w c (n3 ++ n2 ++ n1)).
  - set_solver.
  - by rewrite H3, H2, H1, !(assoc_L (++)).
Qed.

Lemma run_result {A} (run : world * result A) (r : result A) :
  snd run = r → run = (fst run, r).
Proof. destruct run. cbn. congruence. Qed.

End os_facts.

(** * Properties of the certificate bootstrap *)

Module hysteria2_server_spec.
Import pathlib os x509 hysteria2_server os_facts examples.

Section server.
Variable public_bytes : Certificate → list Byte.byte.
Variable private_bytes : RSAPrivateKey → list Byte.byte.

Lemma resolve_paths_run (self : Hysteria2Server) (w : world) :
  ∃ cp kp, resolve_paths self w = (w, Ok (cp, kp)) ∧
           locate w cp = locate w (cert_path self) ∧
           locate w kp = locate w (key_path self).
Proof.
  unfold resolve_paths. destruct (is_absolute (cert_path self)) eqn:Hcert; cbn.
  - eauto.
  - eexists _, _. split; [reflexivity |]. unfold locate, joinpath. rewrite Hcert. cbn.
    split; [done |]. destruct (is_absolute (key_path self)) eqn:Hkey; cbn; by rewrite ?Hkey.
Qed.

Lemma create_directories_run (cp kp : Path) (w w' : world) (r : result unit) :
  create_directories cp kp w = (w', r) →
  evolves (λ _, False) w w' ∧ w_ticks w' = w_ticks w ∧ w_draws w' = w_draws w ∧
  w_log w' = w_log w.
Proof.
  unfold create_directories. intros Hrun.
  apply bind_inv in Hrun as [(w1 & [] & Hmk1 & Hrun) | (e & Hmk1 & ->)].
  - pose proof (mkdir_evolves (λ _, False) _ _ _ _ Hmk1) as Hev1.
    apply mkdir_run in Hmk1.
    apply bind_inv in Hrun as [(w2 & [] & Hmk2 & Hrun) | (e & Hmk2 & ->)].
    + pose proof (mkdir_evolves (λ _, False) _ _ _ _ Hmk2) as Hev2.
      apply mkdir_run in Hmk2.
      assert (w' = w2) as ->.
      { unfold mbind, M_bind, access_W_OK in Hrun. cbn in Hrun.
        destruct (negb _); by injection Hrun as <- _. }
      split; [by eapply evolves_trans |].
      destruct (mkdir_parents _ (w_root w)); destruct Hmk1 as [-> _];
        destruct (mkdir_parents _ _); by destruct Hmk2 as [-> _].
    + pose proof (mkdir_evolves (λ _, False) _ _ _ _ Hmk2) as Hev2.
      apply mkdir_run in Hmk2.
      split; [by eapply evolves_trans |].
      destruct (mkdir_parents _ (w_root w)); destruct Hmk1 as [-> _];
        destruct (mkdir_parents _ _); by destruct Hmk2 as [-> _].
  - pose proof (mkdir_evolves (λ _, False) _ _ _ _ Hmk1) as Hev1.
    apply mkdir_run in Hmk1. split; [done |].
    destruct (mkdir_parents _ (w_root w)); by destruct Hmk1 as [-> _].
Qed.

(** The serial number [random_serial_number] makes fits in 159 bits. *)
Lemma random_serial_number_bound (r : Z) : (Z.shiftr (r mod 2 ^ 160) 1 < 2 ^ 159)%Z.
Proof.
  rewrite Z.shiftr_div_pow2 by lia.
  pose proof (Z.mod_pos_bound r (2 ^ 160) ltac:(lia)) as Hr.
  apply Z.div_lt_upper_bound; [lia |].
  change (2 ^ 1 * 2 ^ 159)%Z with (2 ^ 160)%Z. lia.
Qed.

(** Every run of [build_identity]: it leaves the file system and the log
    alone, returns when the builder accepts and raises when not. *)
Lemma build_identity_run (w w' : world) (r : result (RSAPrivateKey * Certificate)) :
  build_identity w = (w', r) →
  quiet w w' ∧ w_log w' = w_log w ∧
  match r with
  | Ok (key, cert) =>
      builder_accepts w = true ∧
      w_ticks w' = Datatypes.S (Datatypes.S (w_ticks w)) ∧
      w_draws w' = Datatypes.S (Datatypes.S (w_draws w)) ∧
      key = mkPrivateKey 65537 2048 (w_entropy w (w_draws w)) ∧
      cert_public_key cert = public_key key ∧
      signed_with cert = key ∧
      signature_hash_algorithm cert = SHA256 ∧
      extensions cert = [mkExtension (BasicConstraints true None) true] ∧
      subject cert = issuer cert ∧
      serial_number cert = Z.shiftr (w_entropy w (Datatypes.S (w_draws w)) mod 2 ^ 160) 1 ∧
      not_valid_before cert = w_clock w (w_ticks w) ∧
      not_valid_after cert = (w_clock w (Datatypes.S (w_ticks w)) + timedelta_days 365)%Z
  | Raise e =>
      builder_accepts w = false ∧
      (exc_class e = "ValueError" ∨ exc_class e = "OverflowError") ∧
      ((Z.shiftr (w_entropy w (Datatypes.S (w_draws w)) mod 2 ^ 160) 1 ≤ 0)%Z →
       e = ValueError "The serial number should be positive.")
  end.
Proof.
  pose proof (random_serial_number_bound (w_entropy w (Datatypes.S (w_draws w)))) as Hbound.
  unfold build_identity, generate_private_key, random_serial_number, utcnow, urandom, call,
    check_serial_number, check_not_valid_before, check_not_valid_after, datetime_add_days,
    builder_accepts, mbind, M_bind, mret, M_ret.
  cbn -[Z.shiftr Z.modulo Z.pow timedelta_days EARLIEST_UTC_TIME datetime_max Z.leb Z.ltb].
  set (serial := Z.shiftr (w_entropy w (Datatypes.S (w_draws w)) mod 2 ^ 160) 1) in *.
  set (before := w_clock w (w_ticks w)).
  set (after := (w_clock w (Datatypes.S (w_ticks w)) + timedelta_days 365)%Z).
  destruct (Z.leb_spec serial 0) as [Hserial | Hserial].
  { intros [= <- <-]. split; [done |]. split; [done |]. split; [| split; [by left | done]].
    apply andb_false_iff. left. apply andb_false_iff. left. apply andb_false_iff. left.
    apply Z.ltb_ge. done. }
  destruct (Z.leb_spec (2 ^ 159) serial) as [Hbig | _]; [lia |].
  cbn -[Z.shiftr Z.modulo Z.pow timedelta_days EARLIEST_UTC_TIME datetime_max Z.leb Z.ltb].
  destruct (Z.ltb_spec before EARLIEST_UTC_TIME) as [Hearly | Hearly].
  { intros [= <- <-]. split; [done |]. split; [done |]. split; [| split; [by left | lia]].
    apply andb_false_iff. left. apply andb_false_iff. left. apply andb_false_iff. right.
    apply Z.leb_gt. done. }
  cbn -[Z.shiftr Z.modulo Z.pow timedelta_days EARLIEST_UTC_TIME datetime_max Z.leb Z.ltb].
  fold after.
  destruct (Z.ltb_spec datetime_max after) as [Hlate | Hlate].
  { intros [= <- <-]. split; [done |]. split; [done |]. split; [| split; [by right | lia]].
    apply andb_false_iff. right. apply Z.leb_gt. done. }
  cbn -[Z.shiftr Z.modulo Z.pow timedelta_days EARLIEST_UTC_TIME datetime_max Z.leb Z.ltb].
  destruct (Z.ltb_spec after EARLIEST_UTC_TIME) as [Hold | Hold].
  { intros [= <- <-]. split; [done |]. split; [done |]. split; [| split; [by left | lia]].
    apply andb_false_iff. left. apply andb_false_iff. right. apply Z.leb_gt. lia. }
  destruct (Z.ltb_spec after before) as [Hback | Hback].
  { intros [= <- <-]. split; [done |]. split; [done |]. split; [| split; [by left | lia]].
    apply andb_false_iff. left. apply andb_false_iff. right. apply Z.leb_gt. done. }
  intros [= <- <-]. split; [done |]. split; [done |]. split; [| done].
  rewrite !andb_true_iff. repeat split; [apply Z.ltb_lt | apply Z.leb_le..]; lia.
Qed.

(** It returns exactly when the builder accepts. *)
Lemma build_identity_Ok (w : world) :
  builder_accepts w = true →
  ∃ w' key cert, build_identity w = (w', Ok (key, cert)).
Proof.
  intros Haccept.
  destruct (build_identity w) as [w' [[key cert] | e]] eqn:Hbuild; [eauto |].
  apply build_identity_run in Hbuild as (_ & _ & Hrefused & _). congruence.
Qed.

(** [before_writes] draws and reads the clock in [build_identity] only:
    the builder is asked what it would have been asked at the start. *)
Lemma before_writes_run (self : Hysteria2Server) (w w0 : world)
    (r : result (Path * Path * RSAPrivateKey * Certificate)) :
  before_writes self w = (w0, r) →
  evolves (λ _, False) w w0 ∧
  ∀ cp kp key cert, r = Ok (cp, kp, key, cert) →
    resolve_paths self w = (w, Ok (cp, kp)) ∧
    ∃ wb wb', build_identity wb = (wb', Ok (key, cert)) ∧
              w_ticks wb = w_ticks w ∧ w_draws wb = w_draws w ∧
              w_clock wb = w_clock w ∧ w_entropy wb = w_entropy w.
Proof.
  unfold before_writes. intros Hrun.
  destruct (resolve_paths_run self w) as (cp & kp & Hres & _).
  rewrite (bind_Ok _ _ _ _ _ Hres) in Hrun. cbn beta iota in Hrun.
  destruct (log_run INFO ("Generating certificate at: " +:+ str cp) w)
    as (w1 & Hlog1 & Hq1 & Ht1 & Hd1).
  rewrite (bind_Ok _ _ _ _ _ Hlog1) in Hrun.
  destruct (log_run INFO ("Generating key at: " +:+ str kp) w1)
    as (w2 & Hlog2 & Hq2 & Ht2 & Hd2).
  rewrite (bind_Ok _ _ _ _ _ Hlog2) in Hrun.
  assert (evolves (λ _, False) w w2) as Hev2.
  { eapply evolves_trans; by apply quiet_evolves. }
  apply bind_inv in Hrun as [(w3 & [] & Hdirs & Hrun) | (e & Hdirs & ->)].
  - apply create_directories_run in Hdirs as (Hev3 & Ht3 & Hd3 & _).
    destruct (build_identity w3) as [w4 [[key cert] | e]] eqn:Hbuild.
    + pose proof (build_identity_run _ _ _ Hbuild) as (Hq4 & _).
      rewrite (bind_Ok _ _ _ _ _ Hbuild) in Hrun. injection Hrun as <- <-.
      split.
      * eapply evolves_trans; [| by apply quiet_evolves]. by eapply evolves_trans.
      * intros cp' kp' key' cert' [= <- <- <- <-].
        split; [done |]. exists w3, w4. split; [done |].
        destruct Hev3 as (_ & Hc3 & He3 & _), Hev2 as (_ & Hc2 & He2 & _).
        repeat split; congruence.
    + pose proof (build_identity_run _ _ _ Hbuild) as (Hq4 & _).
      rewrite (bind_Raise _ _ _ _ _ Hbuild) in Hrun. injection Hrun as <- <-.
      split; [| done].
      eapply evolves_trans; [| by apply quiet_evolves]. by eapply evolves_trans.
  - apply create_directories_run in Hdirs as (Hev3 & Ht3 & Hd3 & _).
    split; [by eapply evolves_trans | done].
Qed.

Lemma generate_certs_phases (self : Hysteria2Server) (w : world) :
  _generate_certs public_bytes private_bytes self w =
    match before_writes self w with
    | (w0, Raise e) => (w0, Raise e)
    | (w0, Ok (cp, kp, key, cert)) =>
        match write_certificate public_bytes cp cert w0 with
        | (w1, Raise e) => (w1, Raise e)
        | (w1, Ok _) =>
            match write_private_key private_bytes kp key w1 with
            | (w2, Raise e) => (w2, Raise e)
            | (w2, Ok _) =>
                (fst (log INFO ("Generated CA certificate at " +:+ str cp) w2),
                 Ok (mkServer (port self) cp kp))
            end
        end
    end.
Proof.
  unfold _generate_certs, before_writes, mbind, M_bind.
  destruct (resolve_paths self w) as [w1 [[cp kp] | e]]; [| done]. cbn.
  destruct (create_directories cp kp _) as [w2 [[] | e]]; [| done].
  destruct (build_identity w2) as [w3 [[key cert] | e]]; [| done]. cbn.
  destruct (write_certificate public_bytes cp cert w3) as [w4 [[] | e]]; [| done].
  by destruct (write_private_key private_bytes kp key w4) as [w5 [[] | e]].
Qed.

Lemma write_certificate_run (cp : Path) (cert : Certificate) (w w' : world) (r : result unit) :
  write_certificate public_bytes cp cert w = (w', r) →
  evolves (λ q, q = locate w cp) w w' ∧
  w_ticks w' = w_ticks w ∧ w_draws w' = w_draws w ∧
  match r with
  | Ok _ =>
      public_bytes cert ≠ [] ∧
      file_at (locate w cp) (w_root w') = Some (public_bytes cert) ∧
      ∃ s, s ∈ states_since w w' ∧ file_at (locate w cp) s = Some []
  | Raise e =>
      open_wb (locate w cp) (w_root w) = Raise e ∨
      (public_bytes cert = [] ∧
       e = IOError ("Certificate file is empty after write: " +:+ str cp) ∧
       ∃ s, s ∈ states_since w w' ∧ file_at (locate w cp) s = Some [])
  end.
Proof.
  apply (checked_write_run cp (public_bytes cert) _ "Error writing certificate: "
           (λ size, "Certificate written successfully (" +:+ pretty size +:+ " bytes)")).
Qed.

Lemma write_private_key_run (kp : Path) (key : RSAPrivateKey) (w w' : world) (r : result unit) :
  write_private_key private_bytes kp key w = (w', r) →
  evolves (λ q, q = locate w kp) w w' ∧
  w_ticks w' = w_ticks w ∧ w_draws w' = w_draws w ∧
  match r with
  | Ok _ =>
      private_bytes key ≠ [] ∧
      file_at (locate w kp) (w_root w') = Some (private_bytes key) ∧
      ∃ s, s ∈ states_since w w' ∧ file_at (locate w kp) s = Some []
  | Raise e =>
      open_wb (locate w kp) (w_root w) = Raise e ∨
      (private_bytes key = [] ∧
       e = IOError ("Key file is empty after write: " +:+ str kp) ∧
       ∃ s, s ∈ states_since w w' ∧ file_at (locate w kp) s = Some [])
  end.
Proof.
  apply (checked_write_run kp (private_bytes key) _ "Error writing key: "
           (λ size, "Key written successfully (" +:+ pretty size +:+ " bytes)")).
Qed.

(** Every run of [_generate_certs], phase by phase. *)
Lemma generate_certs_cases (self : Hysteria2Server) (w w' : world)
    (r : result Hysteria2Server) :
  _generate_certs public_bytes private_bytes self w = (w', r) →
  ∃ w0 r0, before_writes self w = (w0, r0) ∧ evolves (λ _, False) w w0 ∧
    match r0 with
    | Raise e => w' = w0 ∧ r = Raise e
    | Ok (cp, kp, key, cert) =>
        resolve_paths self w = (w, Ok (cp, kp)) ∧
        locate w0 cp = locate w (cert_path self) ∧
        locate w0 kp = locate w (key_path self) ∧
        ∃ w1 r1, write_certificate public_bytes cp cert w0 = (w1, r1) ∧
          evolves (λ q, q = locate w (cert_path self)) w0 w1 ∧
          match r1 with
          | Raise e => w' = w1 ∧ r = Raise e
          | Ok _ =>
              public_bytes cert ≠ [] ∧
              file_at (locate w (cert_path self)) (w_root w1) = Some (public_bytes cert) ∧
              (∃ s, s ∈ states_since w0 w1 ∧
                    file_at (locate w (cert_path self)) s = Some []) ∧
              ∃ w2 r2, write_private_key private_bytes kp key w1 = (w2, r2) ∧
                evolves (λ q, q = locate w (key_path self)) w1 w2 ∧
                match r2 with
                | Raise e => w' = w2 ∧ r = Raise e
                | Ok _ =>
                    private_bytes key ≠ [] ∧
                    file_at (locate w (key_path self)) (w_root w2) = Some (private_bytes key) ∧
                    quiet w2 w' ∧ w_draws w' = w_draws w2 ∧
                    r = Ok (mkServer (port self) cp kp)
                end
          end
    end.
Proof.
  intros Hrun. rewrite generate_certs_phases in Hrun.
  destruct (before_writes self w) as [w0 r0] eqn:Hbefore.
  pose proof (before_writes_run _ _ _ _ Hbefore) as [Hev0 Hr0].
  exists w0, r0. split; [done |]. split; [done |].
  destruct r0 as [[[[cp kp] key] cert] | e]; [| by injection Hrun as <- <-].
  destruct (Hr0 _ _ _ _ eq_refl) as [Hres _].
  destruct (resolve_paths_run self w) as (cp' & kp' & Hres' & Hcp & Hkp).
  rewrite Hres in Hres'. injection Hres' as <- <-.
  assert (w_cwd w0 = w_cwd w) as Hcwd0 by apply Hev0.
  rewrite <- Hcp, <- Hkp, !(locate_cwd w w0) by done.
  destruct (write_certificate public_bytes cp cert w0) as [w1 r1] eqn:Hcert.
  pose proof (write_certificate_run _ _ _ _ _ Hcert) as (Hev1 & _ & _ & Hr1).
  rewrite (locate_cwd w w0) in Hev1, Hr1 by done.
  split; [done |]. split; [done |]. split; [done |].
  exists w1, r1. split; [done |]. split; [done |].
  destruct r1 as [[] | e]; [| by injection Hrun as <- <-].
  destruct Hr1 as (Hne1 & Hfile1 & Hempty1).
  split; [done |]. split; [done |]. split; [done |].
  assert (w_cwd w1 = w_cwd w) as Hcwd1 by (destruct Hev1 as [? _]; congruence).
  destruct (write_private_key private_bytes kp key w1) as [w2 r2] eqn:Hkey.
  pose proof (write_private_key_run _ _ _ _ _ Hkey) as (Hev2 & _ & _ & Hr2).
  rewrite (locate_cwd w w1) in Hev2, Hr2 by done.
  exists w2, r2. split; [done |]. split; [done |].
  destruct r2 as [[] | e]; [| by injection Hrun as <- <-].
  destruct Hr2 as (Hne2 & Hfile2 & _). injection Hrun as <- <-.
  by repeat split.
Qed.

Lemma file_at_node_at (q : list string) (n : node) (c : list Byte.byte) :
  file_at q n = Some c → is_Some (node_at q n).
Proof. unfold file_at. destruct (node_at q n); [eauto | done]. Qed.

Lemma generate_certs_evolves (self : Hysteria2Server) (w w' : world)
    (r : result Hysteria2Server) :
  _generate_certs public_bytes private_bytes self w = (w', r) →
  evolves (λ q, q = locate w (cert_path self) ∨ q = locate w (key_path self)) w w'.
Proof.
  intros (w0 & r0 & _ & Hev0 & Hrun)%generate_certs_cases.
  apply (evolves_mono _ (λ q, q = locate w (cert_path self) ∨ q = locate w (key_path self)))
    in Hev0; [| done].
  destruct r0 as [[[[cp kp] key] cert] | e]; [| by destruct Hrun as [-> _]].
  destruct Hrun as (_ & _ & _ & w1 & r1 & _ & Hev1 & Hrun).
  apply (evolves_mono _ (λ q, q = locate w (cert_path self) ∨ q = locate w (key_path self)))
    in Hev1; [| by left].
  destruct r1 as [[] | e]; [| destruct Hrun as [-> _]; by eapply evolves_trans].
  destruct Hrun as (_ & _ & _ & w2 & r2 & _ & Hev2 & Hrun).
  apply (evolves_mono _ (λ q, q = locate w (cert_path self) ∨ q = locate w (key_path self)))
    in Hev2; [| by right].
  assert (evolves (λ q, q = locate w (cert_path self) ∨ q = locate w (key_path self)) w w2)
    as Hev by (eapply evolves_trans; [by eapply evolves_trans | done]).
  destruct r2 as [[] | e]; [| by destruct Hrun as [-> _]].
  destruct Hrun as (_ & _ & Hquiet & _).
  eapply evolves_trans; [done |]. by apply quiet_evolves.
Qed.

(** What a successful run leaves behind. *)
Lemma generate_certs_Ok (self self' : Hysteria2Server) (w w' : world) :
  _generate_certs public_bytes private_bytes self w = (w', Ok self') →
  ∃ cp kp,
    resolve_paths self w = (w, Ok (cp, kp)) ∧ self' = mkServer (port self) cp kp ∧
    locate w' cp = locate w (cert_path self) ∧ locate w' kp = locate w (key_path self) ∧
    (∃ s, s ∈ states_since w w' ∧ file_at (locate w (cert_path self)) s = Some []) ∧
    (∃ c, file_at (locate w (cert_path self)) (w_root w') = Some c ∧ c ≠ []) ∧
    (∃ k, file_at (locate w (key_path self)) (w_root w') = Some k ∧ k ≠ []).
Proof.
  intros Hrun. pose proof (generate_certs_evolves _ _ _ _ Hrun) as Hev.
  apply generate_certs_cases in Hrun as (w0 & r0 & Hbefore & Hev0 & Hrun).
  destruct r0 as [[[[cp kp] key] cert] | e]; [| by destruct Hrun].
  destruct Hrun as (Hres & Hcp & Hkp & w1 & r1 & Hcert & Hev1 & Hrun).
  destruct r1 as [[] | e]; [| by destruct Hrun].
  destruct Hrun as (Hne1 & Hfile1 & (s & Hs & Hsfile) & w2 & r2 & Hkey & Hev2 & Hrun).
  destruct r2 as [[] | e]; [| by destruct Hrun].
  destruct Hrun as (Hne2 & Hfile2 & Hquiet & Hdraws & [= ->]).
  assert (evolves (λ _, True) w2 w') as Hev3 by by apply quiet_evolves.
  assert (evolves (λ _, True) w1 w') as Hev13.
  { eapply evolves_trans; [| done]. eapply evolves_mono; [| done]. done. }
  exists cp, kp. split; [done |]. split; [done |].
  assert (w_cwd w' = w_cwd w0) as Hcwd.
  { destruct Hev13 as [? _], Hev1 as [? _]. congruence. }
  rewrite !(locate_cwd w0 w') by done.
  split; [done |]. split; [done |].
  destruct Hquiet as [Hroot _]. rewrite Hroot.
  split; [| split].
  - exists s. split; [| done].
    exact (states_since_between _ _ _ w w0 w1 w' s Hev0 Hev1 Hev13 Hs).
  - destruct (decide (locate w (cert_path self) = locate w (key_path self))) as [Heq | Hne].
    + rewrite Heq. eauto.
    + exists (public_bytes cert). split; [| done].
      destruct Hev2 as (_ & _ & _ & _ & Hframe). by rewrite Hframe.
  - eauto.
Qed.



(** C7, as the code has it. The two writes are made in place: whatever
    the outcome, in every state the run goes through no file other than
    the one at the certificate path and the one at the key path differs
    from the start (there is no temporary file and no rename). A run
    that succeeds went through a state where the certificate path held
    an empty file, and ends with both files non-empty. *)
Theorem generate_certs_writes_in_place (self : Hysteria2Server) (w w' : world)
    (r : result Hysteria2Server) :
  _generate_certs public_bytes private_bytes self w = (w', r) →
  Forall (λ s, ∀ q, q ≠ locate w (cert_path self) → q ≠ locate w (key_path self) →
                    file_at q s = file_at q (w_root w))
         (states_since w w') ∧
  (∀ self', r = Ok self' →
     (∃ s, s ∈ states_since w w' ∧ file_at (locate w (cert_path self)) s = Some []) ∧
     (∃ c, file_at (locate w (cert_path self)) (w_root w') = Some c ∧ c ≠ []) ∧
     (∃ k, file_at (locate w (key_path self)) (w_root w') = Some k ∧ k ≠ [])).
Proof.
  intros Hrun. split.
  - apply generate_certs_evolves, evolves_states_since in Hrun.
    eapply Forall_impl; [exact Hrun |]. cbn. intros s Hs q Hc Hk. apply Hs. by intros [? | ?].
  - intros self' ->.
    by apply generate_certs_Ok in Hrun as (cp & kp & _ & _ & _ & _ & ? & ? & ?).
Qed.

(** [start] when both files are there, and when one is missing. *)
Lemma start_both_exist (self : Hysteria2Server) (w : world) :
  is_Some (node_at (locate w (cert_path self)) (w_root w)) →
  is_Some (node_at (locate w (key_path self)) (w_root w)) →
  start public_bytes private_bytes self w =
    (fst (log INFO ("Hysteria2 server starting on port " +:+ pretty (port self)) w), Ok self).
Proof.
  intros Hcert Hkey. unfold start, exists_, mbind, M_bind.
  by rewrite !bool_decide_eq_true_2.
Qed.

Lemma start_one_missing (self : Hysteria2Server) (w : world) :
  node_at (locate w (cert_path self)) (w_root w) = None ∨
  node_at (locate w (key_path self)) (w_root w) = None →
  start public_bytes private_bytes self w =
    (self' ← _generate_certs public_bytes private_bytes self;
     log INFO ("Hysteria2 server starting on port " +:+ pretty (port self'));;
     mret self') w.
Proof.
  intros Hmissing. unfold start, exists_, mbind, M_bind.
  assert (negb (bool_decide (is_Some (node_at (locate w (cert_path self)) (w_root w)))) ||
          negb (bool_decide (is_Some (node_at (locate w (key_path self)) (w_root w)))) = true)
    as ->; [| done].
  destruct Hmissing as [-> | ->];
    rewrite (bool_decide_eq_false_2 (is_Some None)) by apply is_Some_None.
  - done.
  - apply orb_true_r.
Qed.

(** After a successful [start] both files are where [self] says. *)
Lemma start_Ok_exist (self self1 : Hysteria2Server) (w w1 : world) :
  start public_bytes private_bytes self w = (w1, Ok self1) →
  is_Some (node_at (locate w1 (cert_path self1)) (w_root w1)) ∧
  is_Some (node_at (locate w1 (key_path self1)) (w_root w1)).
Proof.
  intros Hstart.
  destruct (node_at (locate w (cert_path self)) (w_root w)) as [nc |] eqn:Hnc;
    [destruct (node_at (locate w (key_path self)) (w_root w)) as [nk |] eqn:Hnk |].
  - rewrite start_both_exist in Hstart by (by rewrite ?Hnc, ?Hnk).
    injection Hstart as <- <-.
    change (is_Some (node_at (locate w (cert_path self)) (w_root w)) ∧
            is_Some (node_at (locate w (key_path self)) (w_root w))).
    by rewrite Hnc, Hnk.
  - rewrite start_one_missing in Hstart by auto.
    apply bind_inv in Hstart as [(wg & sg & Hgen & Hlog) | (e & _ & [=])].
    injection Hlog as <- <-.
    apply generate_certs_Ok in Hgen
      as (cp & kp & _ & -> & Hcp & Hkp & _ & (c & Hc & _) & (k & Hk & _)).
    change (is_Some (node_at (locate wg cp) (w_root wg)) ∧
            is_Some (node_at (locate wg kp) (w_root wg))).
    rewrite Hcp, Hkp. split; by eapply file_at_node_at.
  - rewrite start_one_missing in Hstart by auto.
    apply bind_inv in Hstart as [(wg & sg & Hgen & Hlog) | (e & _ & [=])].
    injection Hlog as <- <-.
    apply generate_certs_Ok in Hgen
      as (cp & kp & _ & -> & Hcp & Hkp & _ & (c & Hc & _) & (k & Hk & _)).
    change (is_Some (node_at (locate wg cp) (w_root wg)) ∧
            is_Some (node_at (locate wg kp) (w_root wg))).
    rewrite Hcp, Hkp. split; by eapply file_at_node_at.
Qed.

(** C8, as the code has it. When something is at both paths [start]
    changes nothing on disk and generates nothing, whatever the files
    hold and whatever the clock says; so a second [start] after a
    successful one reuses the files. When nothing is at the certificate
    path or nothing at the key path, [start] runs [_generate_certs]. *)
Theorem start_reuses_or_regenerates :
  (∀ self w,
     is_Some (node_at (locate w (cert_path self)) (w_root w)) →
     is_Some (node_at (locate w (key_path self)) (w_root w)) →
     ∃ w', start public_bytes private_bytes self w = (w', Ok self) ∧
           w_root w' = w_root w ∧ w_history w' = w_history w ∧
           w_draws w' = w_draws w ∧ w_ticks w' = w_ticks w) ∧
  (∀ self w w1 self1,
     start public_bytes private_bytes self w = (w1, Ok self1) →
     ∃ w2, start public_bytes private_bytes self1 w1 = (w2, Ok self1) ∧
           w_root w2 = w_root w1 ∧ w_history w2 = w_history w1 ∧
           w_draws w2 = w_draws w1 ∧ w_ticks w2 = w_ticks w1) ∧
  (∀ self w,
     node_at (locate w (cert_path self)) (w_root w) = None ∨
     node_at (locate w (key_path self)) (w_root w) = None →
     start public_bytes private_bytes self w =
       (self' ← _generate_certs public_bytes private_bytes self;
        log INFO ("Hysteria2 server starting on port " +:+ pretty (port self'));;
        mret self') w).
Proof.
  assert (∀ self w,
     is_Some (node_at (locate w (cert_path self)) (w_root w)) →
     is_Some (node_at (locate w (key_path self)) (w_root w)) →
     ∃ w', start public_bytes private_bytes self w = (w', Ok self) ∧
           w_root w' = w_root w ∧ w_history w' = w_history w ∧
           w_draws w' = w_draws w ∧ w_ticks w' = w_ticks w) as Hreuse.
  { intros self w Hcert Hkey. eexists. split; [by apply start_both_exist |]. done. }
  split; [done |]. split; [| apply start_one_missing].
  intros self w w1 self1 Hstart.
  destruct (start_Ok_exist _ _ _ _ Hstart). by apply Hreuse.
Qed.

(** *** Directories *)

Lemma mkdir_existing (p : Path) (w : world) (d : bool) (es : gmap string node) :
  node_at (locate w p) (w_root w) = Some (Dir d es) →
  mkdir p w = (set_root (w_root w) w, Ok tt).
Proof.
  intros Hdir. unfold mkdir, lift_fs. by rewrite (mkdir_parents_existing _ _ _ _ Hdir).
Qed.

Lemma create_directories_locked (cp kp : Path) (w : world) (es : gmap string node)
    (made : node) :
  node_at (locate w (parent cp)) (w_root w) = Some (Dir false es) →
  mkdir_parents (locate w (parent kp)) (w_root w) = Ok made →
  create_directories cp kp w =
    (set_root made (set_root (w_root w) w),
     Raise (PermissionError ("Cannot write to " +:+ str (parent cp)))).
Proof.
  intros Hlocked Hmade. unfold create_directories.
  rewrite (bind_Ok _ _ _ _ _ (mkdir_existing _ _ _ _ Hlocked)).
  assert (mkdir (parent kp) (set_root (w_root w) w) =
            (set_root made (set_root (w_root w) w), Ok tt)) as Hmk.
  { unfold mkdir, lift_fs.
    change (locate (set_root (w_root w) w) (parent kp)) with (locate w (parent kp)).
    change (w_root (set_root (w_root w) w)) with (w_root w). by rewrite Hmade. }
  rewrite (bind_Ok _ _ _ _ _ Hmk).
  destruct (mkdir_parents_flag _ _ _ _ _ _ Hmade Hlocked) as [es' Hflag].
  unfold mbind, M_bind, access_W_OK.
  change (locate (set_root made (set_root (w_root w) w)) (parent cp))
    with (locate w (parent cp)).
  change (w_root (set_root made (set_root (w_root w) w))) with made.
  by rewrite Hflag.
Qed.

Lemma before_writes_dirs (self : Hysteria2Server) (w : world) (cp kp : Path) :
  resolve_paths self w = (w, Ok (cp, kp)) →
  ∃ w2, quiet w w2 ∧ w_draws w2 = w_draws w ∧
    before_writes self w =
      (create_directories cp kp;;
       '(private_key, cert) ← build_identity;
       mret (cp, kp, private_key, cert)) w2.
Proof.
  intros Hres. eexists. split; [| split]; [| | unfold before_writes;
    rewrite (bind_Ok _ _ _ _ _ Hres); reflexivity]; by repeat split.
Qed.

(** C9. Creating a directory again succeeds and changes nothing, and so
    does creating one that is already there. When the certificate's
    directory is there but may not be written to, [_generate_certs]
    raises [PermissionError("Cannot write to <directory>")] with no file
    touched and no key generated; an error raised while the directory is
    being created comes out of [_generate_certs] as it is; and [start]
    passes on whatever [_generate_certs] raises. *)
Theorem create_directories_idempotent_or_fatal :
  (∀ p w w1, mkdir p w = (w1, Ok tt) →
     ∃ w2, mkdir p w1 = (w2, Ok tt) ∧ w_root w2 = w_root w1) ∧
  (∀ p w d es, node_at (locate w p) (w_root w) = Some (Dir d es) →
     ∃ w1, mkdir p w = (w1, Ok tt) ∧ w_root w1 = w_root w) ∧
  (∀ self w cp kp es made,
     resolve_paths self w = (w, Ok (cp, kp)) →
     node_at (locate w (parent cp)) (w_root w) = Some (Dir false es) →
     mkdir_parents (locate w (parent kp)) (w_root w) = Ok made →
     ∃ w', _generate_certs public_bytes private_bytes self w =
             (w', Raise (PermissionError ("Cannot write to " +:+ str (parent cp)))) ∧
           (∀ q, file_at q (w_root w') = file_at q (w_root w)) ∧
           w_draws w' = w_draws w) ∧
  (∀ self w cp kp e,
     resolve_paths self w = (w, Ok (cp, kp)) →
     mkdir_parents (locate w (parent cp)) (w_root w) = Raise e →
     ∃ w', _generate_certs public_bytes private_bytes self w = (w', Raise e) ∧ w_root w' = w_root w) ∧
  (∀ self w cp kp made e,
     resolve_paths self w = (w, Ok (cp, kp)) →
     mkdir_parents (locate w (parent cp)) (w_root w) = Ok made →
     mkdir_parents (locate w (parent kp)) made = Raise e →
     ∃ w', _generate_certs public_bytes private_bytes self w = (w', Raise e) ∧
           ∀ q, file_at q (w_root w') = file_at q (w_root w)) ∧
  (∀ self w w' e,
     node_at (locate w (cert_path self)) (w_root w) = None ∨
     node_at (locate w (key_path self)) (w_root w) = None →
     _generate_certs public_bytes private_bytes self w = (w', Raise e) →
     start public_bytes private_bytes self w = (w', Raise e)).
Proof.
  repeat split.
  - intros p w w1 Hmk. pose proof (mkdir_evolves (λ _, False) _ _ _ _ Hmk) as (Hcwd & _).
    apply mkdir_run in Hmk.
    destruct (mkdir_parents (locate w p) (w_root w)) as [made |] eqn:Hmade;
      [| by destruct Hmk as [_ [=]]].
    destruct Hmk as [-> _].
    destruct (mkdir_parents_is_dir _ _ _ Hmade) as (d & es & Hdir).
    eexists. split; [exact (mkdir_existing p (set_root made w) d es Hdir) | reflexivity].
  - intros p w d es Hdir. eexists. split; [by eapply mkdir_existing | done].
  - intros self w cp kp es made Hres Hlocked Hmade.
    destruct (before_writes_dirs _ _ _ _ Hres) as (w2 & (Hroot & _ & Hcwd & _) & Hdraws & Hbefore).
    rewrite generate_certs_phases, Hbefore.
    assert (create_directories cp kp w2 =
              (set_root made (set_root (w_root w2) w2),
               Raise (PermissionError ("Cannot write to " +:+ str (parent cp))))) as Hdirs.
    { apply (create_directories_locked cp kp w2 es made); by rewrite (locate_cwd w), Hroot. }
    rewrite (bind_Raise _ _ _ _ _ Hdirs).
    eexists. split; [reflexivity |]. cbn. split; [| done].
    intros q. by eapply mkdir_parents_files.
  - intros self w cp kp e Hres Hraise.
    destruct (before_writes_dirs _ _ _ _ Hres) as (w2 & (Hroot & _ & Hcwd & _) & Hdraws & Hbefore).
    rewrite generate_certs_phases, Hbefore.
    assert (create_directories cp kp w2 = (w2, Raise e)) as Hdirs.
    { unfold create_directories. apply bind_Raise. unfold mkdir, lift_fs.
      by rewrite (locate_cwd w), Hroot, Hraise. }
    rewrite (bind_Raise _ _ _ _ _ Hdirs). eauto.
  - intros self w cp kp made e Hres Hmade Hraise.
    destruct (before_writes_dirs _ _ _ _ Hres) as (w2 & (Hroot & _ & Hcwd & _) & Hdraws & Hbefore).
    rewrite generate_certs_phases, Hbefore.
    assert (create_directories cp kp w2 = (set_root made w2, Raise e)) as Hdirs.
    { unfold create_directories.
      assert (mkdir (parent cp) w2 = (set_root made w2, Ok tt)) as Hmk.
      { unfold mkdir, lift_fs. by rewrite (locate_cwd w), Hroot, Hmade. }
      rewrite (bind_Ok _ _ _ _ _ Hmk). apply bind_Raise. unfold mkdir, lift_fs.
      change (locate (set_root made w2) (parent kp)) with (locate w2 (parent kp)).
      change (w_root (set_root made w2)) with made.
      by rewrite (locate_cwd w), Hraise. }
    rewrite (bind_Raise _ _ _ _ _ Hdirs).
    eexists. split; [reflexivity |]. intros q. cbn. by eapply mkdir_parents_files.
  - intros self w w' e Hmissing Hgen.
    rewrite start_one_missing by done. by apply bind_Raise.
Qed.

(** *** The order of the two writes *)

Lemma checked_write_open_fails (p : Path) (data : list Byte.byte)
    (empty_msg err_prefix : string) (ok_msg : nat → string) (w : world) (e : exc) :
  open_wb (locate w p) (w_root w) = Raise e →
  ∃ w', os.try_except
          (write_file p data;;
           size ← stat_st_size p;
           (if decide (size = 0) then raise (IOError empty_msg) else mret tt);;
           size ← stat_st_size p;
           log INFO (ok_msg size))
          (λ e, log ERROR (err_prefix +:+ exc_str e);; raise e) w = (w', Raise e).
Proof.
  intros Hopen. unfold os.try_except.
  assert (write_file p data w = (w, Raise e)) as Hwrite.
  { unfold write_file, lift_fs, mbind, M_bind. by rewrite Hopen. }
  rewrite (bind_Raise _ _ _ _ _ Hwrite). destruct (derives_Exception e); eauto.
Qed.

(** C10. When the block that writes the certificate raises, as it does
    when the file cannot be opened and when no bytes were written,
    [_generate_certs] raises the same error there and then: no state of
    the run differs from the start anywhere but at the certificate path.
    In any run, with distinct paths, a key file that changed at some
    point means the certificate file is there and non-empty at the end.
    On success both files are non-empty and [self] holds the resolved
    paths. *)
Theorem generate_certs_certificate_before_key :
  (∀ self w w0 cp kp key cert w1 e,
     before_writes self w = (w0, Ok (cp, kp, key, cert)) →
     write_certificate public_bytes cp cert w0 = (w1, Raise e) →
     _generate_certs public_bytes private_bytes self w = (w1, Raise e) ∧
     Forall (λ s, ∀ q, q ≠ locate w (cert_path self) → file_at q s = file_at q (w_root w))
            (states_since w w1)) ∧
  (∀ cp cert w0,
     (∀ e, open_wb (locate w0 cp) (w_root w0) = Raise e →
           ∃ w1, write_certificate public_bytes cp cert w0 = (w1, Raise e)) ∧
     (public_bytes cert = [] →
      ∃ w1 e, write_certificate public_bytes cp cert w0 = (w1, Raise e))) ∧
  (∀ self w w' r,
     _generate_certs public_bytes private_bytes self w = (w', r) →
     locate w (cert_path self) ≠ locate w (key_path self) →
     (∃ s, s ∈ states_since w w' ∧
           file_at (locate w (key_path self)) s ≠ file_at (locate w (key_path self)) (w_root w)) →
     ∃ c, file_at (locate w (cert_path self)) (w_root w') = Some c ∧ c ≠ []) ∧
  (∀ self w w' self',
     _generate_certs public_bytes private_bytes self w = (w', Ok self') →
     ∃ cp kp,
       resolve_paths self w = (w, Ok (cp, kp)) ∧
       cert_path self' = cp ∧ key_path self' = kp ∧
       (∃ c, file_at (locate w (cert_path self)) (w_root w') = Some c ∧ c ≠ []) ∧
       (∃ k, file_at (locate w (key_path self)) (w_root w') = Some k ∧ k ≠ [])).
Proof.
  split; [| split; [| split]].
  - intros self w w0 cp kp key cert w1 e Hbefore Hcert.
    assert (_generate_certs public_bytes private_bytes self w = (w1, Raise e)) as Hgen.
    { by rewrite generate_certs_phases, Hbefore, Hcert. }
    split; [done |].
    apply generate_certs_cases in Hgen as (w0' & r0 & Hbefore' & Hev0 & Hrun).
    rewrite Hbefore in Hbefore'. injection Hbefore' as <- <-.
    destruct Hrun as (_ & _ & _ & w1' & r1 & Hcert' & Hev1 & _).
    rewrite Hcert in Hcert'. injection Hcert' as <- <-.
    apply (evolves_mono _ (λ q, q = locate w (cert_path self))) in Hev0; [| done].
    pose proof (evolves_states_since _ _ _ (evolves_trans _ _ _ _ Hev0 Hev1)) as Hall.
    eapply Forall_impl; [exact Hall |]. cbn. intros s Hs q Hq. by apply Hs.
  - intros cp cert w0. split.
    + intros e Hopen. by apply checked_write_open_fails.
    + intros Hempty.
      destruct (write_certificate public_bytes cp cert w0) as [w1 [[] | e]] eqn:Hcert; [| eauto].
      by apply write_certificate_run in Hcert as (_ & _ & _ & Hne & _).
  - intros self w w' r Hgen Hne (s & Hs & Hchanged).
    assert (∀ P w'', evolves P w w'' → ¬ P (locate w (key_path self)) → w' = w'' → False)
      as Huntouched.
    { intros P w'' Hev HP ->. apply evolves_states_since in Hev.
      rewrite Forall_forall in Hev. apply Hchanged. by apply Hev. }
    apply generate_certs_cases in Hgen as (w0 & r0 & _ & Hev0 & Hrun).
    destruct r0 as [[[[cp kp] key] cert] | e];
      [| destruct Hrun as [-> _]; exfalso; apply (Huntouched _ _ Hev0); [by intros [] | done]].
    destruct Hrun as (_ & _ & _ & w1 & r1 & _ & Hev1 & Hrun).
    apply (evolves_mono _ (λ q, q = locate w (cert_path self))) in Hev0; [| done].
    pose proof (evolves_trans _ _ _ _ Hev0 Hev1) as Hev01.
    destruct r1 as [[] | e];
      [| destruct Hrun as [-> _]; exfalso; apply (Huntouched _ _ Hev01); [congruence | done]].
    destruct Hrun as (Hnonempty & Hfile & _ & w2 & r2 & _ & Hev2 & Hrun).
    exists (public_bytes cert). split; [| done].
    destruct Hev2 as (_ & _ & _ & _ & Hframe).
    destruct r2 as [[] | e].
    + destruct Hrun as (_ & _ & (Hroot & _) & _). rewrite Hroot. by rewrite Hframe.
    + destruct Hrun as [-> _]. by rewrite Hframe.
  - intros self w w' self' Hgen.
    apply generate_certs_Ok in Hgen as (cp & kp & Hres & -> & _ & _ & _ & Hc & Hk).
    by exists cp, kp.
Qed.

End server.

(** *** The theorems at work on the example panel *)



(** C7, as the specification has it, fails. In [fresh_world] the run
    succeeds, and the sizes of the certificate file over the states it
    went through are: absent, absent, 0, 30, 30, 30. A crash in the third
    state leaves an empty file at the certificate path, which is neither
    what was there before nor the certificate. *)
Lemma generate_certs_not_atomic :
  snd fresh_run = Ok server1 ∧
  (λ s, length <$> file_at ca_crt s) <$> reverse (states_since fresh_world (fst fresh_run)) =
    [None; None; Some 0; Some 30; Some 30; Some 30] ∧
  (λ s, length <$> file_at ca_key s) <$> reverse (states_since fresh_world (fst fresh_run)) =
    [None; None; None; None; Some 0; Some 8] ∧
  ¬ Forall (λ s, file_at ca_crt s = file_at ca_crt (w_root fresh_world) ∨
                 file_at ca_crt s = file_at ca_crt (w_root (fst fresh_run)))
           (states_since fresh_world (fst fresh_run)).
Proof.
  split; [vm_compute; reflexivity |]. split; [vm_compute; reflexivity |].
  split; [vm_compute; reflexivity |].
  intros Hatomic. rewrite Forall_lookup in Hatomic.
  destruct (states_since fresh_world (fst fresh_run) !! 3) as [s |] eqn:Hs.
  - assert (file_at ca_crt s = Some []) as Hempty.
    { change (from_option (file_at ca_crt) None (Some s) = Some []).
      rewrite <- Hs. vm_compute. reflexivity. }
    destruct (Hatomic 3 s Hs) as [Hold | Hnew]; rewrite Hempty in *.
    + vm_compute in Hold. discriminate.
    + vm_compute in Hnew. discriminate.
  - apply lookup_ge_None in Hs. vm_compute in Hs. lia.
Qed.

(** The same run touches nothing but the two files. *)
Lemma generate_certs_writes_in_place_witness :
  Forall (λ s, ∀ q, q ≠ locate fresh_world (cert_path server0) →
                    q ≠ locate fresh_world (key_path server0) →
                    file_at q s = file_at q (w_root fresh_world))
         (states_since fresh_world (fst fresh_run)) ∧
  (∀ self', Ok server1 = Ok self' →
     (∃ s, s ∈ states_since fresh_world (fst fresh_run) ∧
           file_at (locate fresh_world (cert_path server0)) s = Some []) ∧
     (∃ c, file_at (locate fresh_world (cert_path server0)) (w_root (fst fresh_run)) = Some c ∧
           c ≠ []) ∧
     (∃ k, file_at (locate fresh_world (key_path server0)) (w_root (fst fresh_run)) = Some k ∧
           k ≠ [])).
Proof.
  assert (fresh_run = (fst fresh_run, Ok server1)) as Hrun
    by (apply run_result; vm_compute; reflexivity).
  exact (generate_certs_writes_in_place toy_public_bytes toy_private_bytes
           server0 fresh_world (fst fresh_run) (Ok server1) Hrun).
Defined.

(** C8, as the specification has it, fails. In [expired_world] the
    certificate on disk ran out 35 days ago; [start] returns normally and
    has changed nothing and generated nothing. *)
Lemma start_keeps_expired_identity :
  file_at ca_crt (w_root expired_world) = Some (toy_public_bytes old_cert) ∧
  (not_valid_after old_cert < w_clock expired_world (w_ticks expired_world))%Z ∧
  snd expired_start = Ok server0 ∧
  w_root (fst expired_start) = w_root expired_world ∧
  w_history (fst expired_start) = w_history expired_world ∧
  w_draws (fst expired_start) = w_draws expired_world.
Proof. repeat split; reflexivity. Qed.

(** A second [start] after the one in [fresh_world]. *)
Lemma start_reuses_or_regenerates_witness :
  ∃ w2, start toy_public_bytes toy_private_bytes server1 (fst fresh_start) = (w2, Ok server1) ∧
        w_root w2 = w_root (fst fresh_start) ∧ w_history w2 = w_history (fst fresh_start) ∧
        w_draws w2 = w_draws (fst fresh_start) ∧ w_ticks w2 = w_ticks (fst fresh_start).
Proof.
  assert (fresh_start = (fst fresh_start, Ok server1)) as Hrun
    by (apply run_result; vm_compute; reflexivity).
  exact (proj1 (proj2 (start_reuses_or_regenerates toy_public_bytes toy_private_bytes))
               server0 fresh_world (fst fresh_start) server1 Hrun).
Defined.

(** /opt/smite/certs is there and locked. *)
Lemma create_directories_idempotent_or_fatal_witness :
  ∃ w', _generate_certs toy_public_bytes toy_private_bytes server0 locked_world =
          (w', Raise (PermissionError
                        ("Cannot write to " +:+ str (parent (mkPath true ca_crt))))) ∧
        (∀ q, file_at q (w_root w') = file_at q (w_root locked_world)) ∧
        w_draws w' = w_draws locked_world.
Proof.
  apply (proj1 (proj2 (proj2
           (create_directories_idempotent_or_fatal toy_public_bytes toy_private_bytes)))
           server0 locked_world (mkPath true ca_crt) (mkPath true ca_key) ∅ locked_root).
  - reflexivity.
  - reflexivity.
  - apply (mkdir_parents_existing _ _ false ∅). reflexivity.
Defined.

(** With an encoder that yields no bytes the run stops at the certificate. *)
Lemma generate_certs_certificate_before_key_witness :
  ∃ w1,
    _generate_certs blank_bytes toy_private_bytes server0 fresh_world =
      (w1, Raise (IOError ("Certificate file is empty after write: " +:+
                           str (mkPath true ca_crt)))) ∧
    Forall (λ s, ∀ q, q ≠ locate fresh_world (cert_path server0) →
                      file_at q s = file_at q (w_root fresh_world))
           (states_since fresh_world w1).
Proof.
  eexists.
  apply (proj1 (generate_certs_certificate_before_key blank_bytes toy_private_bytes)
           server0 fresh_world (fst (before_writes server0 fresh_world))
           (mkPath true ca_crt) (mkPath true ca_key) fresh_key fresh_cert).
  - apply run_result. vm_compute. reflexivity.
  - apply run_result. vm_compute. reflexivity.
Defined.

End hysteria2_server_spec.

(** * More on the agent: the remaining endpoint, odd usage figures, the
      logging middleware *)

Module agent_edge_cases.
Import adapter_manager agent examples agent_spec LoggingMiddleware scenarios.

(** Two multiplications by 1024 of a figure of [2^1004] MB or more give
    an infinity. *)
Lemma mul_1024_twice_overflow (m e : Z) :
  (2 ^ 1024 ≤ Z.abs m * 2 ^ (e + 20))%Z →
  mul_1024 (mul_1024 (Float (Finite m e))) = Float (Inf (m <? 0)%Z).
Proof.
  intros Hbig. unfold mul_1024 at 2.
  destruct (Z.ltb_spec (Z.abs m * 2 ^ (e + 10)) (2 ^ 1024)) as [_ | _]; [| done].
  unfold mul_1024. replace (e + 10 + 10)%Z with (e + 20)%Z by lia.
  destruct (Z.ltb_spec (Z.abs m * 2 ^ (e + 20)) (2 ^ 1024)) as [Hlt | _]; [lia | done].
Qed.

Section endpoints.
Context {S : Type} `{!AdapterManager S}.

(** X1. POST /tunnels/remove answers
    [{status: success, message: Tunnel removed}] when the manager's
    [remove_tunnel] returns, whatever it returns; when it raises an
    error [e] the caller gets [HTTPException(500, detail=str(e))]; a
    raise is never answered with a body. In each case the manager is
    left in the state the call put it in. *)
Theorem remove_tunnel_success_or_500 (data : TunnelRemove.t) (s : S) :
  let call := adapter_manager.remove_tunnel (TunnelRemove.tunnel_id data) s in
  (∀ s' u, call = (s', Ok u) →
     remove_tunnel data s =
       (s', Returned [("status", VStr "success"); ("message", VStr "Tunnel removed")])) ∧
  (∀ s' e, call = (s', Raise e) → derives_Exception e = true →
     remove_tunnel data s = (s', RaisedHTTPException 500 (exc_str e))) ∧
  (∀ s' e, call = (s', Raise e) →
     ∀ body, snd (remove_tunnel data s) ≠ Returned body).
Proof.
  unfold remove_tunnel. cbv zeta. repeat split.
  - by intros s' u ->.
  - intros s' e -> He. cbn. by rewrite He.
  - intros s' e -> body. cbn [snd]. apply or_500_not_Returned.
Qed.

(** X2. POST /usage/push never raises an [HTTPException]: whatever the
    manager holds and whatever the meter does, a body it returns is
    either [{status: ok, bytes_used}] or [{status: error, message}], and
    the only exceptions that get out of it are those that do not derive
    from [Exception]. *)
Theorem push_usage_never_an_http_error (data : UsagePush.t) (s : S) :
  (∀ status_code detail, push_usage data s ≠ RaisedHTTPException status_code detail) ∧
  (∀ body, push_usage data s = Returned body →
     (∃ bytes, body = [("status", VStr "ok"); ("bytes_used", VInt bytes)]) ∨
     (∃ message, body = [("status", VStr "error"); ("message", VStr message)])) ∧
  (∀ e, push_usage data s = Propagated e → derives_Exception e = false).
Proof.
  unfold push_usage.
  destruct (active_tunnels s !! UsagePush.tunnel_id data) as [a |]; cbn.
  - destruct (get_usage_mb a (UsagePush.tunnel_id data)) as [usage_mb | e0]; cbn.
    + destruct (int (mul_1024 (mul_1024 usage_mb))) as [bytes | e0]; cbn.
      * repeat split; [done | | done]. intros body [= <-]. eauto.
      * destruct (derives_Exception e0) eqn:He0; cbn;
          (repeat split; [done | | ]); [intros body [= <-]; eauto | done | done |].
        by intros e [= <-].
    + destruct (derives_Exception e0) eqn:He0; cbn;
        (repeat split; [done | | ]); [intros body [= <-]; eauto | done | done |].
      by intros e [= <-].
  - repeat split; [done | | done]. intros body [= <-]. eauto.
Qed.

(** X3. When the meter of an active tunnel reports a float that has no
    integer value (an infinity, not-a-number, or a finite figure so
    large that the two multiplications by 1024 overflow), POST
    /usage/push answers [{status: error, message}] with the text of the
    conversion error; the caller's own figure is not used. *)
Theorem push_usage_unrepresentable_usage (data : UsagePush.t) (s : S) (a : adapter)
    (f : float) :
  active_tunnels s !! UsagePush.tunnel_id data = Some a →
  get_usage_mb a (UsagePush.tunnel_id data) = Ok (Float f) →
  match f with
  | Finite m e => (2 ^ 1024 ≤ Z.abs m * 2 ^ (e + 20))%Z
  | _ => True
  end →
  push_usage data s =
    Returned [("status", VStr "error");
              ("message", VStr match f with
                               | NaN => "cannot convert float NaN to integer"
                               | _ => "cannot convert float infinity to integer"
                               end)].
Proof.
  intros Ha Hmb Hf. unfold push_usage. rewrite Ha. cbn -[mul_1024 int].
  rewrite Hmb. cbn -[mul_1024 int].
  destruct f as [m e | neg |]; [| done..].
  by rewrite (mul_1024_twice_overflow _ _ Hf).
Qed.

(** X4. For a finite usage figure [m * 2^e] MB of an active tunnel that
    does not overflow, the [bytes_used] of the answer is that figure
    times [2^20] with the fraction cut off towards zero: exact when
    there is no fraction, otherwise the largest magnitude not above it,
    with the sign of the figure. *)
Theorem push_usage_truncates_towards_zero (data : UsagePush.t) (s : S) (a : adapter)
    (m e : Z) :
  active_tunnels s !! UsagePush.tunnel_id data = Some a →
  get_usage_mb a (UsagePush.tunnel_id data) = Ok (Float (Finite m e)) →
  float_valid (Finite m e) →
  (Z.abs m * 2 ^ (e + 20) < 2 ^ 1024)%Z →
  ∃ bytes,
    push_usage data s = Returned [("status", VStr "ok"); ("bytes_used", VInt bytes)] ∧
    (0 ≤ e + 20 → bytes = m * 2 ^ (e + 20))%Z ∧
    (e + 20 < 0 →
       Z.abs bytes * 2 ^ (- (e + 20)) ≤ Z.abs m < (Z.abs bytes + 1) * 2 ^ (- (e + 20)))%Z ∧
    (0 ≤ m → 0 ≤ bytes)%Z ∧ (m ≤ 0 → bytes ≤ 0)%Z.
Proof.
  intros Ha Hmb Hvalid Hfin.
  pose proof (int_mul_1024_Finite m e Hvalid Hfin) as Hint.
  assert (∀ bytes, int (mul_1024 (mul_1024 (Float (Finite m e)))) = Ok bytes →
    push_usage data s = Returned [("status", VStr "ok"); ("bytes_used", VInt bytes)])
    as Hrun.
  { intros bytes Hbytes. unfold push_usage. rewrite Ha. cbn -[mul_1024 int].
    rewrite Hmb. cbn -[mul_1024 int]. rewrite Hbytes. reflexivity. }
  destruct (Z.leb_spec 0 (e + 20)) as [Hpos | Hneg].
  - exists (m * 2 ^ (e + 20))%Z. split; [by apply Hrun |].
    assert (0 < 2 ^ (e + 20))%Z by (apply Z.pow_pos_nonneg; lia).
    split; [done |]. split; [lia |]. split; intros; nia.
  - assert (0 < 2 ^ (- (e + 20)))%Z as Hd by (apply Z.pow_pos_nonneg; lia).
    exists (m ÷ 2 ^ (- (e + 20)))%Z. split; [by apply Hrun |].
    set (d := (2 ^ (- (e + 20)))%Z) in *.
    split; [lia |]. split; [| split].
    + intros _. rewrite <- Z.quot_abs by lia. rewrite (Z.abs_eq d) by lia.
      rewrite Z.quot_div_nonneg by lia.
      pose proof (Z.mul_div_le (Z.abs m) d Hd).
      pose proof (Z.mul_succ_div_gt (Z.abs m) d Hd). lia.
    + intros Hm. apply Z.quot_pos; lia.
    + intros Hm. pose proof (Z.quot_opp_l m d ltac:(lia)) as Hopp.
      assert (0 ≤ (- m) ÷ d)%Z by (apply Z.quot_pos; lia). lia.
Qed.

End endpoints.

Section dispatch.
Context {S : Type}.
Variable decode : list Byte.byte → result string.
Variable call_next : Request → S → S * result Response.

(** X5. The middleware is transparent. On any route but
    /api/agent/tunnels/apply the application gets the request as it
    came and nothing is printed. On that route, when the body decodes,
    the application gets a request with the same method, path and body,
    the body now delivered in one piece although the middleware has
    read it. Either way the state the application leaves and what it
    returns or raises are handed on unchanged. *)
Theorem dispatch_passes_through (request : Request) (s : S) (stderr : list string) :
  url_path request ≠ "/api/agent/tunnels/apply" ∨ (∃ text, decode (body request) = Ok text) →
  ∃ request',
    method request' = method request ∧
    url_path request' = url_path request ∧
    body request' = body request ∧
    (dispatch decode call_next request s stderr).1.1 = (call_next request' s).1 ∧
    (dispatch decode call_next request s stderr).2 = (call_next request' s).2 ∧
    (url_path request = "/api/agent/tunnels/apply" → _receive request' = [body request]) ∧
    (url_path request ≠ "/api/agent/tunnels/apply" →
       request' = request ∧ (dispatch decode call_next request s stderr).1.2 = stderr).
Proof.
  intros Hcase. unfold dispatch.
  destruct (decide (url_path request = "/api/agent/tunnels/apply")) as [Hpath | Hpath].
  - destruct Hcase as [Hne | [text Htext]]; [done |].
    rewrite bool_decide_eq_true_2 by done. rewrite Htext.
    exists (mkRequest (method request) (url_path request) [body request]).
    split; [done |]. split; [done |].
    split; [unfold body; cbn; apply app_nil_r |].
    destruct (call_next _ s) as [s' [response | e]]; done.
  - rewrite bool_decide_eq_false_2 by done.
    exists request.
    destruct (call_next request s) as [s' [response | e]]; done.
Qed.

(** X6. On /api/agent/tunnels/apply a body that does not decode makes
    the middleware raise the decoding error after its first line of
    output: the application is never called, so its state is as
    before. *)
Theorem dispatch_undecodable_body (request : Request) (s : S) (stderr : list string)
    (e : exc) :
  url_path request = "/api/agent/tunnels/apply" →
  decode (body request) = Raise e →
  dispatch decode call_next request s stderr =
    (s,
     (stderr ++ ["🔵 MIDDLEWARE: " +:+ method request +:+ " " +:+ url_path request])%list,
     Raise e).
Proof.
  intros Hpath Hraise. unfold dispatch.
  rewrite bool_decide_eq_true_2 by done. by rewrite Hraise.
Qed.

End dispatch.

(** *** The theorems at work *)

(** Removing a tunnel the toy manager does not know. *)
Lemma remove_tunnel_success_or_500_witness :
  remove_tunnel (TunnelRemove.Build "t9") one_tunnel =
    (one_tunnel, RaisedHTTPException 500 "Tunnel not found: t9").
Proof.
  apply (proj1 (proj2 (remove_tunnel_success_or_500 (TunnelRemove.Build "t9") one_tunnel))
               one_tunnel (error "NotFoundError" "Tunnel not found: t9"));
    reflexivity.
Defined.

(** A meter that raises is answered with an error body. *)
Lemma push_usage_never_an_http_error_witness :
  (∃ bytes, [("status", VStr "error"); ("message", VStr "stats socket closed")] =
            [("status", VStr "ok"); ("bytes_used", VInt bytes)]) ∨
  (∃ message, [("status", VStr "error"); ("message", VStr "stats socket closed")] =
              [("status", VStr "error"); ("message", VStr message)]).
Proof.
  apply (proj1 (proj2 (push_usage_never_an_http_error (UsagePush.Build "t1" 5) one_broken))).
  reflexivity.
Defined.

(** 2^1020 MB of usage. *)
Lemma push_usage_unrepresentable_usage_witness :
  push_usage (UsagePush.Build "t1" 7) huge_tunnel =
    Returned [("status", VStr "error");
              ("message", VStr "cannot convert float infinity to integer")].
Proof.
  assert (active_tunnels huge_tunnel !! "t1" = Some (fixed_usage (Float (Finite (2 ^ 52) 968))))
    as Hactive by (vm_compute; reflexivity).
  apply (push_usage_unrepresentable_usage (UsagePush.Build "t1" 7) huge_tunnel
           (fixed_usage (Float (Finite (2 ^ 52) 968))) (Finite (2 ^ 52) 968) Hactive).
  - reflexivity.
  - vm_compute. discriminate.
Defined.

(** Half a byte of usage is reported as none. *)
Lemma push_usage_truncates_towards_zero_witness :
  ∃ bytes,
    push_usage (UsagePush.Build "t1" 7) half_byte_tunnel =
      Returned [("status", VStr "ok"); ("bytes_used", VInt bytes)] ∧
    (0 ≤ -21 + 20 → bytes = 1 * 2 ^ (-21 + 20))%Z ∧
    (-21 + 20 < 0 →
       Z.abs bytes * 2 ^ (- (-21 + 20)) ≤ Z.abs 1 < (Z.abs bytes + 1) * 2 ^ (- (-21 + 20)))%Z ∧
    (0 ≤ 1 → 0 ≤ bytes)%Z ∧ (1 ≤ 0 → bytes ≤ 0)%Z.
Proof.
  assert (active_tunnels half_byte_tunnel !! "t1" = Some (fixed_usage (Float (Finite 1 (-21)))))
    as Hactive by (vm_compute; reflexivity).
  apply (push_usage_truncates_towards_zero (UsagePush.Build "t1" 7) half_byte_tunnel
           (fixed_usage (Float (Finite 1 (-21)))) 1 (-21) Hactive).
  - reflexivity.
  - cbn. lia.
  - vm_compute. reflexivity.
Defined.

(** A body sent in two pieces reaches the application in one. *)
Lemma dispatch_passes_through_witness :
  ∃ request',
    method request' = method apply_request ∧
    url_path request' = url_path apply_request ∧
    body request' = body apply_request ∧
    (dispatch decode_ascii counting_app apply_request 0 []).1.1 = (counting_app request' 0).1 ∧
    (dispatch decode_ascii counting_app apply_request 0 []).2 = (counting_app request' 0).2 ∧
    (url_path apply_request = "/api/agent/tunnels/apply" →
       _receive request' = [body apply_request]) ∧
    (url_path apply_request ≠ "/api/agent/tunnels/apply" →
       request' = apply_request ∧
       (dispatch decode_ascii counting_app apply_request 0 []).1.2 = []).
Proof.
  apply (dispatch_passes_through decode_ascii counting_app apply_request 0 []).
  right. exists "tunnel_id=t1". reflexivity.
Defined.

(** A body that is not text stops at the middleware. *)
Lemma dispatch_undecodable_body_witness :
  dispatch decode_ascii counting_app garbled_request 0 [] =
    (0, ["🔵 MIDDLEWARE: POST /api/agent/tunnels/apply"],
     Raise (error "UnicodeDecodeError" "'utf-8' codec can't decode bytes")).
Proof.
  apply (dispatch_undecodable_body decode_ascii counting_app garbled_request 0 []
           (error "UnicodeDecodeError" "'utf-8' codec can't decode bytes"));
    reflexivity.
Defined.

End agent_edge_cases.

(** * More on the file system: what opening and writing a file leave
      alone, and what a checked write comes to *)

Module os_write_facts.
Import pathlib os x509 hysteria2_server os_facts.

(** *** Opening a file for writing *)

Lemma node_at_app (d q : list string) : ∀ n,
  node_at (d ++ q) n = node_at d n ≫= node_at q.
Proof.
  induction d as [| a d IH]; intros n; [done |]. cbn.
  destruct n as [| w es]; [done |]. destruct (es !! a) as [child |]; cbn; [apply IH | done].
Qed.

Lemma open_wb_creates (d : list string) (c : string) : ∀ n es,
  node_at d n = Some (Dir true es) → node_at (d ++ [c]) n = None →
  ∃ n', open_wb (d ++ [c]) n = Ok n'.
Proof.
  induction d as [| a d IH]; intros n es Hdir Habsent; cbn in *.
  - injection Hdir as ->. destruct (es !! c); [done |]. eauto.
  - destruct n as [| w0 es0]; [done |].
    destruct (es0 !! a) as [child |]; [| done]. cbn in *.
    destruct (IH _ _ Hdir Habsent) as [child' ->]. cbn. eauto.
Qed.

Lemma open_wb_denied (d : list string) (c : string) : ∀ n es,
  node_at d n = Some (Dir false es) → node_at (d ++ [c]) n = None →
  open_wb (d ++ [c]) n = Raise (PermissionError "[Errno 13] Permission denied").
Proof.
  induction d as [| a d IH]; intros n es Hdir Habsent; cbn in *.
  - injection Hdir as ->. by destruct (es !! c).
  - destruct n as [| w0 es0]; [done |].
    destruct (es0 !! a) as [child |]; [| done]. cbn in *.
    by rewrite (IH _ _ Hdir Habsent).
Qed.

(** Opening a file creates nothing else and leaves directories as they are. *)
Lemma open_wb_absent (p : list string) : ∀ n n' q,
  open_wb p n = Ok n' → q ≠ p → node_at q n = None → node_at q n' = None.
Proof.
  induction p as [| c p IH]; intros n n' q Hop Hne Habsent; cbn in Hop.
  - destruct n; [| done]. injection Hop as <-. by destruct q.
  - destruct n as [| w0 es0]; [done |].
    destruct (es0 !! c) as [child |] eqn:Hc.
    + destruct (open_wb p child) as [child' |] eqn:Hrec; [| done].
      injection Hop as <-. destruct q as [| c' q]; [done |]. cbn in *.
      destruct (decide (c' = c)) as [-> | Hc'].
      * rewrite lookup_insert_eq. rewrite Hc in Habsent. cbn in *.
        apply (IH _ _ _ Hrec); [congruence | done].
      * by rewrite lookup_insert_ne.
    + destruct p; [| done]. destruct w0; [| done].
      injection Hop as <-. destruct q as [| c' q]; [done |]. cbn in *.
      destruct (decide (c' = c)) as [-> | Hc'].
      * rewrite lookup_insert_eq. cbn. destruct q; [congruence | done].
      * by rewrite lookup_insert_ne.
Qed.

Lemma open_wb_flag (p : list string) : ∀ n n' q w es,
  open_wb p n = Ok n' → node_at q n = Some (Dir w es) →
  ∃ es', node_at q n' = Some (Dir w es').
Proof.
  induction p as [| c p IH]; intros n n' q w es Hop Hdir; cbn in Hop.
  - destruct n; [| done]. destruct q; cbn in Hdir; discriminate.
  - destruct n as [| w0 es0]; [done |].
    destruct (es0 !! c) as [child |] eqn:Hc.
    + destruct (open_wb p child) as [child' |] eqn:Hrec; [| done].
      injection Hop as <-. destruct q as [| c' q]; cbn in *.
      * injection Hdir as <- <-. eauto.
      * destruct (decide (c' = c)) as [-> | Hc'].
        -- rewrite lookup_insert_eq. rewrite Hc in Hdir. cbn in *. eauto.
        -- rewrite lookup_insert_ne by done. eauto.
    + destruct p; [| done]. destruct w0; [| done].
      injection Hop as <-. destruct q as [| c' q]; cbn in *.
      * injection Hdir as <-. eauto.
      * destruct (decide (c' = c)) as [-> | Hc'].
        -- by rewrite Hc in Hdir.
        -- rewrite lookup_insert_ne by done. eauto.
Qed.

Lemma write_bytes_absent (p : list string) (data : list Byte.byte) : ∀ n q,
  node_at q n = None → node_at q (write_bytes p data n) = None.
Proof.
  induction p as [| c p IH]; intros n q Habsent.
  - destruct n; [| done]. destruct q; [discriminate | done].
  - destruct n as [| w0 es0]; [done |]. destruct q as [| c' q]; [discriminate |]. cbn in *.
    destruct (decide (c' = c)) as [-> | Hc'].
    + rewrite lookup_alter_eq. destruct (es0 !! c) as [child |]; [| done]. cbn in *. eauto.
    + by rewrite lookup_alter_ne.
Qed.

Lemma write_bytes_flag (p : list string) (data : list Byte.byte) : ∀ n q w es,
  node_at q n = Some (Dir w es) → ∃ es', node_at q (write_bytes p data n) = Some (Dir w es').
Proof.
  induction p as [| c p IH]; intros n q w es Hdir.
  - destruct n; [destruct q; cbn in Hdir; discriminate | eauto].
  - destruct n as [| w0 es0]; [eauto |]. destruct q as [| c' q]; cbn in *.
    + injection Hdir as <- <-. eauto.
    + destruct (decide (c' = c)) as [-> | Hc'].
      * rewrite lookup_alter_eq. destruct (es0 !! c) as [child |]; [| done]. cbn in *. eauto.
      * rewrite lookup_alter_ne by done. eauto.
Qed.

(** *** What a checked write comes to *)

Lemma checked_write_outcome (p : Path) (data : list Byte.byte)
    (empty_msg err_prefix : string) (ok_msg : nat → string) (w : world) :
  os.try_except
    (write_file p data;;
     size ← stat_st_size p;
     (if decide (size = 0) then raise (IOError empty_msg) else mret tt);;
     size ← stat_st_size p;
     log INFO (ok_msg size))
    (λ e, log ERROR (err_prefix +:+ exc_str e);; raise e) w =
  match open_wb (locate w p) (w_root w) with
  | Raise e =>
      if derives_Exception e
      then (fst (log ERROR (err_prefix +:+ exc_str e) w), Raise e)
      else (w, Raise e)
  | Ok opened =>
      let w1 := set_root (write_bytes (locate w p) data opened) (set_root opened w) in
      if decide (length data = 0)
      then (fst (log ERROR (err_prefix +:+ empty_msg) w1), Raise (IOError empty_msg))
      else (fst (log INFO (ok_msg (length data)) w1), Ok tt)
  end.
Proof.
  unfold os.try_except.
  destruct (write_file p data w) as [w1 r] eqn:Hwrite.
  pose proof (write_file_run _ _ _ _ _ Hwrite) as Hrun.
  destruct (open_wb (locate w p) (w_root w)) as [opened | e] eqn:Hopen.
  - destruct Hrun as [-> ->]. cbn zeta.
    set (w1 := set_root (write_bytes (locate w p) data opened) (set_root opened w)) in *.
    assert (stat_st_size p w1 = (w1, Ok (length data))) as Hstat.
    { apply stat_st_size_file. apply (write_file_Ok _ _ _ _ Hwrite). }
    rewrite (bind_Ok _ _ _ _ _ Hwrite), (bind_Ok _ _ _ _ _ Hstat).
    destruct (decide (length data = 0)) as [Hzero | Hpos].
    + by rewrite (bind_Raise _ _ w1 w1 (IOError empty_msg)).
    + rewrite (bind_Ok _ _ w1 w1 tt) by done. by rewrite (bind_Ok _ _ _ _ _ Hstat).
  - destruct Hrun as [-> ->]. rewrite (bind_Raise _ _ _ _ _ Hwrite).
    by destruct (derives_Exception e).
Qed.

(** A path is found in the directory its parent is found at. *)
Lemma locate_parent (w : world) (p : Path) :
  parts p ≠ [] → locate w p = (locate w (parent p) ++ [List.last (parts p) ""])%list.
Proof.
  intros Hparts. unfold locate, parent. cbn.
  destruct (is_absolute p); rewrite (app_removelast_last "" Hparts) at 1; [done |].
  by rewrite (assoc_L (++)).
Qed.

End os_write_facts.

(** * More on the certificate bootstrap: whole runs *)

Module hysteria2_server_runs.
Import pathlib os x509 hysteria2_server examples scenarios os_facts os_write_facts
  hysteria2_server_spec.

Section server.
Variable public_bytes : Certificate → list Byte.byte.
Variable private_bytes : RSAPrivateKey → list Byte.byte.

(** Resolving a path does not move its directory either. *)
Lemma resolve_paths_parent (self : Hysteria2Server) (w : world) (cp kp : Path) :
  resolve_paths self w = (w, Ok (cp, kp)) →
  parts (cert_path self) ≠ [] → parts (key_path self) ≠ [] →
  locate w (parent cp) = locate w (parent (cert_path self)) ∧
  locate w (parent kp) = locate w (parent (key_path self)).
Proof.
  unfold resolve_paths. intros Hres Hc Hk.
  destruct (is_absolute (cert_path self)) eqn:Hcert; cbn in Hres.
  - by injection Hres as <- <-.
  - injection Hres as <- <-. unfold locate, parent, joinpath. rewrite Hcert. cbn.
    split; [by rewrite removelast_app |].
    destruct (is_absolute (key_path self)) eqn:Hkey; cbn; rewrite ?Hkey; [done |].
    by rewrite removelast_app.
Qed.

Lemma create_directories_existing (cp kp : Path) (w : world) (es ek : gmap string node)
    (dk : bool) :
  node_at (locate w (parent cp)) (w_root w) = Some (Dir true es) →
  node_at (locate w (parent kp)) (w_root w) = Some (Dir dk ek) →
  create_directories cp kp w = (set_root (w_root w) (set_root (w_root w) w), Ok tt).
Proof.
  intros Hc Hk. unfold create_directories.
  rewrite (bind_Ok _ _ _ _ _ (mkdir_existing _ _ _ _ Hc)).
  rewrite (bind_Ok _ _ _ _ _ (mkdir_existing (parent kp) (set_root (w_root w) w) dk ek Hk)).
  unfold mbind, M_bind, access_W_OK.
  change (locate (set_root (w_root (set_root (w_root w) w)) (set_root (w_root w) w)) (parent cp))
    with (locate w (parent cp)).
  change (w_root (set_root (w_root (set_root (w_root w) w)) (set_root (w_root w) w)))
    with (w_root w).
  by rewrite Hc.
Qed.

Lemma before_writes_logged (self : Hysteria2Server) (w : world) (cp kp : Path) :
  resolve_paths self w = (w, Ok (cp, kp)) →
  before_writes self w =
    (create_directories cp kp;;
     '(private_key, cert) ← build_identity;
     mret (cp, kp, private_key, cert))
      (fst (log INFO ("Generating key at: " +:+ str kp)
              (fst (log INFO ("Generating certificate at: " +:+ str cp) w)))).
Proof. intros Hres. unfold before_writes. by rewrite (bind_Ok _ _ _ _ _ Hres). Qed.

(** When the two directories are there, the certificate's can be written
    to, nothing is at the certificate path, the builder accepts and the
    encoder gives bytes, everything up to and including the certificate
    write succeeds. *)
Lemma certificate_phase_succeeds (self : Hysteria2Server) (w : world)
    (es ek : gmap string node) (dk : bool) :
  builder_accepts w = true →
  node_at (locate w (parent (cert_path self))) (w_root w) = Some (Dir true es) →
  node_at (locate w (parent (key_path self))) (w_root w) = Some (Dir dk ek) →
  node_at (locate w (cert_path self)) (w_root w) = None →
  node_at (locate w (key_path self)) (w_root w) = None →
  locate w (cert_path self) ≠ locate w (key_path self) →
  (∀ c, public_bytes c ≠ []) →
  ∃ w0 w1 cp kp key cert ek',
    before_writes self w = (w0, Ok (cp, kp, key, cert)) ∧
    resolve_paths self w = (w, Ok (cp, kp)) ∧
    key = mkPrivateKey 65537 2048 (w_entropy w (w_draws w)) ∧
    write_certificate public_bytes cp cert w0 = (w1, Ok tt) ∧
    w_cwd w1 = w_cwd w ∧
    locate w1 kp = locate w (key_path self) ∧
    file_at (locate w (cert_path self)) (w_root w1) = Some (public_bytes cert) ∧
    node_at (locate w (key_path self)) (w_root w1) = None ∧
    node_at (locate w (parent (key_path self))) (w_root w1) = Some (Dir dk ek') ∧
    w_log w1 = (w_log w ++
      [(INFO, "Generating certificate at: " +:+ str cp);
       (INFO, "Generating key at: " +:+ str kp);
       (INFO, "Certificate written successfully (" +:+ pretty (length (public_bytes cert))
                +:+ " bytes)")])%list.
Proof.
  intros Haccept Hcdir Hkdir Hcabs Hkabs Hne Hbytes.
  assert (parts (cert_path self) ≠ []) as Hcparts.
  { intros Hnil. unfold locate, parent in Hcdir, Hcabs. rewrite Hnil in *. cbn in *. congruence. }
  assert (parts (key_path self) ≠ []) as Hkparts.
  { intros Hnil. unfold locate, parent in Hkdir, Hkabs. rewrite Hnil in *. cbn in *. congruence. }
  destruct (resolve_paths_run self w) as (cp & kp & Hres & Hcp & Hkp).
  destruct (resolve_paths_parent _ _ _ _ Hres Hcparts Hkparts) as [Hcpp Hkpp].
  pose proof (before_writes_logged _ _ _ _ Hres) as Hbefore.
  set (w2 := fst (log INFO ("Generating key at: " +:+ str kp)
                    (fst (log INFO ("Generating certificate at: " +:+ str cp) w)))) in *.
  assert (w_root w2 = w_root w) as Hroot2 by done.
  assert (w_cwd w2 = w_cwd w) as Hcwd2 by done.
  assert (w_entropy w2 = w_entropy w) as Hent2 by done.
  assert (w_draws w2 = w_draws w) as Hdraws2 by done.
  assert (create_directories cp kp w2 =
            (set_root (w_root w2) (set_root (w_root w2) w2), Ok tt)) as Hdirs.
  { apply (create_directories_existing cp kp w2 es ek dk).
    - by rewrite (locate_cwd w), Hroot2, Hcpp.
    - by rewrite (locate_cwd w), Hroot2, Hkpp. }
  set (w3 := set_root (w_root w2) (set_root (w_root w2) w2)) in *.
  destruct (build_identity_Ok w3 Haccept) as (w4 & key & cert & Hbuild).
  pose proof (build_identity_run _ _ _ Hbuild) as (Hq4 & Hlog4 & _ & _ & _ & Hkey & _).
  destruct Hq4 as (Hroot4 & Hhist4 & Hcwd4 & _).
  assert (key = mkPrivateKey 65537 2048 (w_entropy w (w_draws w))) as Hkey'.
  { rewrite Hkey. reflexivity. }
  assert (before_writes self w = (w4, Ok (cp, kp, key, cert))) as Hbefore'.
  { rewrite Hbefore, (bind_Ok _ _ _ _ _ Hdirs), (bind_Ok _ _ _ _ _ Hbuild). done. }
  assert (w_cwd w4 = w_cwd w) as Hcwd by (rewrite Hcwd4; exact Hcwd2).
  assert (w_root w4 = w_root w) as Hroot by (rewrite Hroot4; exact Hroot2).
  assert (locate w4 cp = locate w (cert_path self)) as Hlc by by rewrite (locate_cwd w).
  destruct (open_wb_creates (locate w (parent (cert_path self)))
              (List.last (parts (cert_path self)) "") (w_root w) es Hcdir) as [opened Hopen].
  { by rewrite <- locate_parent. }
  rewrite <- locate_parent in Hopen by done.
  pose proof (checked_write_outcome cp (public_bytes cert)
    ("Certificate file is empty after write: " +:+ str cp) "Error writing certificate: "
    (λ size, "Certificate written successfully (" +:+ pretty size +:+ " bytes)") w4) as Hout.
  rewrite Hlc, Hroot, Hopen in Hout. cbn zeta in Hout.
  destruct (decide (length (public_bytes cert) = 0)) as [Hzero | _].
  { apply nil_length_inv in Hzero. by destruct (Hbytes cert). }
  destruct (open_wb_flag _ _ _ _ _ _ Hopen Hkdir) as [ek1 Hk1].
  destruct (write_bytes_flag (locate w (cert_path self)) (public_bytes cert) _ _ _ _ Hk1)
    as [ek2 Hk2].
  eexists w4, _, cp, kp, key, cert, ek2. split; [done |]. split; [done |].
  split; [done |].
  split; [exact Hout |]. split; [done |].
  split; [rewrite <- Hkp; apply locate_cwd; exact Hcwd |].
  split; [| split; [| split]].
  - cbn. apply write_bytes_file. by rewrite (open_wb_file _ _ _ Hopen).
  - cbn. apply write_bytes_absent. by apply (open_wb_absent _ _ _ _ Hopen).
  - exact Hk2.
  - cbn. rewrite Hlog4. unfold w3, w2. cbn. by rewrite <- !(assoc_L (++)).
Qed.


(** X7. First boot. When the two directories are there and writable,
    neither file is, the two paths differ, the builder accepts the
    serial number drawn and the clock readings, and both encoders give
    bytes, [start] returns normally with [self] holding the resolved
    paths; it has drawn a 2048-bit key with exponent 65537 from the
    entropy source,
    the certificate file holds the encoded certificate and the key file
    that key encoded, and the log has gained exactly six lines, all at
    INFO, the last one announcing the port. *)
Theorem start_first_boot_succeeds (self : Hysteria2Server) (w : world)
    (es ek : gmap string node) :
  builder_accepts w = true →
  node_at (locate w (parent (cert_path self))) (w_root w) = Some (Dir true es) →
  node_at (locate w (parent (key_path self))) (w_root w) = Some (Dir true ek) →
  node_at (locate w (cert_path self)) (w_root w) = None →
  node_at (locate w (key_path self)) (w_root w) = None →
  locate w (cert_path self) ≠ locate w (key_path self) →
  (∀ c, public_bytes c ≠ []) → (∀ k, private_bytes k ≠ []) →
  ∃ w' cp kp key cert,
    start public_bytes private_bytes self w = (w', Ok (mkServer (port self) cp kp)) ∧
    resolve_paths self w = (w, Ok (cp, kp)) ∧
    key = mkPrivateKey 65537 2048 (w_entropy w (w_draws w)) ∧
    file_at (locate w (cert_path self)) (w_root w') = Some (public_bytes cert) ∧
    file_at (locate w (key_path self)) (w_root w') = Some (private_bytes key) ∧
    w_log w' = (w_log w ++
      [(INFO, "Generating certificate at: " +:+ str cp);
       (INFO, "Generating key at: " +:+ str kp);
       (INFO, "Certificate written successfully (" +:+ pretty (length (public_bytes cert))
                +:+ " bytes)");
       (INFO, "Key written successfully (" +:+ pretty (length (private_bytes key))
                +:+ " bytes)");
       (INFO, "Generated CA certificate at " +:+ str cp);
       (INFO, "Hysteria2 server starting on port " +:+ pretty (port self))])%list.
Proof.
  intros Haccept Hcdir Hkdir Hcabs Hkabs Hne Hpub Hpriv.
  assert (parts (key_path self) ≠ []) as Hkparts.
  { intros Hnil. unfold locate, parent in Hkdir, Hkabs. rewrite Hnil in *. cbn in *. congruence. }
  destruct (certificate_phase_succeeds self w es ek true Haccept Hcdir Hkdir Hcabs Hkabs Hne Hpub)
    as (w0 & w1 & cp & kp & key & cert & ek' & Hbefore & Hres & Hkey & Hcert & Hcwd1 & Hlk
        & Hcfile & Hkabs1 & Hkdir1 & Hlog1).
  destruct (open_wb_creates (locate w (parent (key_path self)))
              (List.last (parts (key_path self)) "") (w_root w1) ek' Hkdir1) as [opened Hopen].
  { by rewrite <- locate_parent. }
  rewrite <- locate_parent in Hopen by done.
  pose proof (checked_write_outcome kp (private_bytes key)
    ("Key file is empty after write: " +:+ str kp) "Error writing key: "
    (λ size, "Key written successfully (" +:+ pretty size +:+ " bytes)") w1) as Hout.
  rewrite Hlk, Hopen in Hout. cbn zeta in Hout.
  destruct (decide (length (private_bytes key) = 0)) as [Hzero | _].
  { apply nil_length_inv in Hzero. by destruct (Hpriv key). }
  set (wk := fst (log INFO ("Key written successfully (" +:+
                            pretty (length (private_bytes key)) +:+ " bytes)")
                    (set_root (write_bytes (locate w (key_path self)) (private_bytes key) opened)
                              (set_root opened w1)))) in *.
  assert (_generate_certs public_bytes private_bytes self w =
            (fst (log INFO ("Generated CA certificate at " +:+ str cp) wk),
             Ok (mkServer (port self) cp kp))) as Hgen.
  { rewrite generate_certs_phases, Hbefore, Hcert.
    unfold write_private_key. by rewrite Hout. }
  eexists _, cp, kp, key, cert. split.
  { rewrite start_one_missing by auto. rewrite (bind_Ok _ _ _ _ _ Hgen). reflexivity. }
  split; [done |]. split; [done |]. cbn. split; [| split].
  - rewrite write_bytes_frame by done. by rewrite (open_wb_frame _ _ _ _ Hopen).
  - apply write_bytes_file. by rewrite (open_wb_file _ _ _ Hopen).
  - rewrite Hlog1. by rewrite <- !(assoc_L (++)).
Qed.

(** X8. Only the certificate's directory is checked for write access.
    When the key's directory is there but may not be written to, while
    the certificate's is writable, neither file is there and the builder
    accepts the serial number drawn and the clock readings,
    [_generate_certs] gets past the check, writes the certificate, and
    only then raises a [PermissionError] from opening the key file: the
    certificate is left on disk without a key beside it, and the error is
    logged as the key's. *)
Theorem generate_certs_key_directory_locked (self : Hysteria2Server) (w : world)
    (es ek : gmap string node) :
  builder_accepts w = true →
  node_at (locate w (parent (cert_path self))) (w_root w) = Some (Dir true es) →
  node_at (locate w (parent (key_path self))) (w_root w) = Some (Dir false ek) →
  node_at (locate w (cert_path self)) (w_root w) = None →
  node_at (locate w (key_path self)) (w_root w) = None →
  (∀ c, public_bytes c ≠ []) →
  ∃ w' e cp kp cert,
    _generate_certs public_bytes private_bytes self w = (w', Raise e) ∧
    exc_class e = "PermissionError" ∧
    resolve_paths self w = (w, Ok (cp, kp)) ∧
    file_at (locate w (cert_path self)) (w_root w') = Some (public_bytes cert) ∧
    node_at (locate w (key_path self)) (w_root w') = None ∧
    w_log w' = (w_log w ++
      [(INFO, "Generating certificate at: " +:+ str cp);
       (INFO, "Generating key at: " +:+ str kp);
       (INFO, "Certificate written successfully (" +:+ pretty (length (public_bytes cert))
                +:+ " bytes)");
       (ERROR, "Error writing key: " +:+ exc_str e)])%list.
Proof.
  intros Haccept Hcdir Hkdir Hcabs Hkabs Hpub.
  assert (locate w (cert_path self) ≠ locate w (key_path self)) as Hne.
  { intros Heq.
    assert (parts (cert_path self) ≠ []) as Hcparts.
    { intros Hnil. unfold locate, parent in Hcdir, Hcabs. rewrite Hnil in *. cbn in *. congruence. }
    assert (parts (key_path self) ≠ []) as Hkparts.
    { intros Hnil. unfold locate, parent in Hkdir, Hkabs. rewrite Hnil in *. cbn in *. congruence. }
    rewrite (locate_parent w (cert_path self)), (locate_parent w (key_path self)) in Heq by done.
    apply app_inj_tail in Heq as [Heq _]. rewrite Heq in Hcdir. congruence. }
  assert (parts (key_path self) ≠ []) as Hkparts.
  { intros Hnil. unfold locate, parent in Hkdir, Hkabs. rewrite Hnil in *. cbn in *. congruence. }
  destruct (certificate_phase_succeeds self w es ek false Haccept Hcdir Hkdir Hcabs Hkabs Hne Hpub)
    as (w0 & w1 & cp & kp & key & cert & ek' & Hbefore & Hres & Hkey & Hcert & Hcwd1 & Hlk
        & Hcfile & Hkabs1 & Hkdir1 & Hlog1).
  pose proof (open_wb_denied (locate w (parent (key_path self)))
                (List.last (parts (key_path self)) "") (w_root w1) ek' Hkdir1) as Hopen.
  rewrite <- locate_parent in Hopen by done. specialize (Hopen Hkabs1).
  pose proof (checked_write_outcome kp (private_bytes key)
    ("Key file is empty after write: " +:+ str kp) "Error writing key: "
    (λ size, "Key written successfully (" +:+ pretty size +:+ " bytes)") w1) as Hout.
  rewrite Hlk, Hopen in Hout. cbn in Hout.
  eexists _, _, cp, kp, cert. split.
  { rewrite generate_certs_phases, Hbefore, Hcert.
    unfold write_private_key. rewrite Hout. reflexivity. }
  cbn. repeat split; try done. rewrite Hlog1. by rewrite <- !(assoc_L (++)).
Qed.

(** X9. Each of the two write blocks, when it raises an error [e], has
    first logged exactly one line, at ERROR, that names the file kind and
    carries [str(e)]; no success line is logged. *)
Theorem write_blocks_log_errors :
  (∀ cp cert w w' e,
     write_certificate public_bytes cp cert w = (w', Raise e) →
     derives_Exception e = true →
     w_log w' = (w_log w ++ [(ERROR, "Error writing certificate: " +:+ exc_str e)])%list) ∧
  (∀ kp key w w' e,
     write_private_key private_bytes kp key w = (w', Raise e) →
     derives_Exception e = true →
     w_log w' = (w_log w ++ [(ERROR, "Error writing key: " +:+ exc_str e)])%list).
Proof.
  assert (∀ p data empty_msg err_prefix ok_msg w w' e,
    os.try_except
      (write_file p data;;
       size ← stat_st_size p;
       (if decide (size = 0) then raise (IOError empty_msg) else mret tt);;
       size ← stat_st_size p;
       log INFO (ok_msg size))
      (λ e, log ERROR (err_prefix +:+ exc_str e);; raise e) w = (w', Raise e) →
    derives_Exception e = true →
    w_log w' = (w_log w ++ [(ERROR, err_prefix +:+ exc_str e)])%list) as Hlog.
  { intros p data empty_msg err_prefix ok_msg w w' e Hrun He.
    rewrite checked_write_outcome in Hrun.
    destruct (open_wb (locate w p) (w_root w)) as [opened | e0].
    - cbn zeta in Hrun. destruct (decide (length data = 0)); [| done].
      by injection Hrun as <- <-.
    - destruct (derives_Exception e0) eqn:He0.
      + by injection Hrun as <- <-.
      + injection Hrun as <- <-. congruence. }
  split.
  - intros cp cert w w' e. apply Hlog.
  - intros kp key w w' e. apply Hlog.
Qed.

(** X10. Nothing checks that the two paths differ. When both settings
    name the same file and [_generate_certs] succeeds, that file holds
    the private key: the certificate written first has been overwritten. *)
Theorem generate_certs_same_path_keeps_key_only (self self' : Hysteria2Server) (w w' : world) :
  locate w (cert_path self) = locate w (key_path self) →
  _generate_certs public_bytes private_bytes self w = (w', Ok self') →
  file_at (locate w (cert_path self)) (w_root w') =
    Some (private_bytes (mkPrivateKey 65537 2048 (w_entropy w (w_draws w)))).
Proof.
  intros Hsame Hgen.
  apply generate_certs_cases in Hgen as (w0 & r0 & Hbefore & Hev0 & Hrun).
  apply before_writes_run in Hbefore as [_ Hr0].
  destruct r0 as [[[[cp kp] key] cert] | e]; [| by destruct Hrun].
  destruct (Hr0 _ _ _ _ eq_refl) as (_ & wb & wb' & Hbuild & _ & Hdraws & _ & Hent).
  apply build_identity_run in Hbuild as (_ & _ & _ & _ & _ & Hkey & _).
  destruct Hrun as (_ & _ & _ & w1 & r1 & _ & _ & Hrun).
  destruct r1 as [[] | e]; [| by destruct Hrun].
  destruct Hrun as (_ & _ & _ & w2 & r2 & _ & _ & Hrun).
  destruct r2 as [[] | e]; [| by destruct Hrun].
  destruct Hrun as (_ & Hfile & (Hroot & _) & _).
  by rewrite Hsame, Hroot, Hfile, Hkey, Hent, Hdraws.
Qed.

(** X11. Resolving the paths always succeeds, changes nothing and names
    the same two files as before. Whether to resolve is decided on the
    certificate path alone: when it is absolute both settings are used
    as they are, the key's even if relative; when it is relative both
    resolved paths are absolute. *)
Theorem resolve_paths_keeps_files (self : Hysteria2Server) (w : world) :
  ∃ cp kp,
    resolve_paths self w = (w, Ok (cp, kp)) ∧
    locate w cp = locate w (cert_path self) ∧
    locate w kp = locate w (key_path self) ∧
    (if is_absolute (cert_path self)
     then cp = cert_path self ∧ kp = key_path self
     else is_absolute cp = true ∧ is_absolute kp = true).
Proof.
  destruct (resolve_paths_run self w) as (cp & kp & Hres & Hcp & Hkp).
  exists cp, kp. repeat split; try done.
  unfold resolve_paths in Hres.
  destruct (is_absolute (cert_path self)) eqn:Hcert; cbn in Hres.
  - by injection Hres as <- <-.
  - injection Hres as <- <-. unfold joinpath. rewrite Hcert. cbn.
    by destruct (is_absolute (key_path self)) eqn:Hkey.
Qed.

End server.

(** *** The theorems at work *)

(** [server0] started where /opt/smite/certs is ready. *)
Lemma start_first_boot_succeeds_witness :
  ∃ w' cp kp key cert,
    start toy_public_bytes toy_private_bytes server0 ready_world =
      (w', Ok (mkServer (port server0) cp kp)) ∧
    resolve_paths server0 ready_world = (ready_world, Ok (cp, kp)) ∧
    key = mkPrivateKey 65537 2048 (w_entropy ready_world (w_draws ready_world)) ∧
    file_at (locate ready_world (cert_path server0)) (w_root w') = Some (toy_public_bytes cert) ∧
    file_at (locate ready_world (key_path server0)) (w_root w') = Some (toy_private_bytes key) ∧
    w_log w' = (w_log ready_world ++
      [(INFO, "Generating certificate at: " +:+ str cp);
       (INFO, "Generating key at: " +:+ str kp);
       (INFO, "Certificate written successfully (" +:+ pretty (length (toy_public_bytes cert))
                +:+ " bytes)");
       (INFO, "Key written successfully (" +:+ pretty (length (toy_private_bytes key))
                +:+ " bytes)");
       (INFO, "Generated CA certificate at " +:+ str cp);
       (INFO, "Hysteria2 server starting on port " +:+ pretty (port server0))])%list.
Proof.
  apply (start_first_boot_succeeds toy_public_bytes toy_private_bytes server0 ready_world ∅ ∅).
  - vm_compute. reflexivity.
  - reflexivity.
  - reflexivity.
  - reflexivity.
  - reflexivity.
  - discriminate.
  - intros c. discriminate.
  - intros k. discriminate.
Defined.

(** /opt/smite/keys is locked. *)
Lemma generate_certs_key_directory_locked_witness :
  ∃ w' e cp kp cert,
    _generate_certs toy_public_bytes toy_private_bytes split_server split_world = (w', Raise e) ∧
    exc_class e = "PermissionError" ∧
    resolve_paths split_server split_world = (split_world, Ok (cp, kp)) ∧
    file_at (locate split_world (cert_path split_server)) (w_root w') =
      Some (toy_public_bytes cert) ∧
    node_at (locate split_world (key_path split_server)) (w_root w') = None ∧
    w_log w' = (w_log split_world ++
      [(INFO, "Generating certificate at: " +:+ str cp);
       (INFO, "Generating key at: " +:+ str kp);
       (INFO, "Certificate written successfully (" +:+ pretty (length (toy_public_bytes cert))
                +:+ " bytes)");
       (ERROR, "Error writing key: " +:+ exc_str e)])%list.
Proof.
  apply (generate_certs_key_directory_locked toy_public_bytes toy_private_bytes
           split_server split_world ∅ ∅).
  - vm_compute. reflexivity.
  - reflexivity.
  - reflexivity.
  - reflexivity.
  - reflexivity.
  - intros c. discriminate.
Defined.

(** An encoder that yields no bytes: the empty file is reported. *)
Lemma write_blocks_log_errors_witness :
  w_log (fst blank_certificate_write) =
    (w_log fresh_before_writes ++
      [(ERROR, "Error writing certificate: " +:+
               exc_str (IOError ("Certificate file is empty after write: " +:+
                                 str (mkPath true ca_crt))))])%list.
Proof.
  apply (proj1 (write_blocks_log_errors blank_bytes toy_private_bytes)
           (mkPath true ca_crt) fresh_cert fresh_before_writes (fst blank_certificate_write)).
  - apply run_result. vm_compute. reflexivity.
  - reflexivity.
Defined.

(** One file for both: it ends up holding the key. *)
Lemma generate_certs_same_path_keeps_key_only_witness :
  file_at (locate fresh_world (cert_path pem_server)) (w_root (fst pem_run)) =
    Some (toy_private_bytes
            (mkPrivateKey 65537 2048 (w_entropy fresh_world (w_draws fresh_world)))).
Proof.
  apply (generate_certs_same_path_keeps_key_only toy_public_bytes toy_private_bytes
           pem_server
           (mkServer 4443 (mkPath true ["opt"; "smite"; "certs"; "ca.pem"])
                          (mkPath true ["opt"; "smite"; "certs"; "ca.pem"]))
           fresh_world (fst pem_run)).
  - reflexivity.
  - apply run_result. vm_compute. reflexivity.
Defined.

End hysteria2_server_runs.
